(** * Leonardo API integration layer: a shallow embedding of [leonardo.ts]
    and of the generation / upload logic of [index.tsx].

    Modelling conventions.
    - A JavaScript [Error] is modelled by its message ([ErrMsg]); the two
      failures whose message is produced by the platform ([fetch] rejecting,
      [response.json()] rejecting on a non-JSON body) get their own
      constructors.
    - Strings are Stdlib [string]s (ASCII); JS numbers that are only passed
      through (weights, contrast) are rationals [Q], integral ones [Z].
    - The remote service is an oracle: for every endpoint, a function of the
      history of the session (the log of effects so far) to the result of
      the [fetch] call.
    - The log records each HTTP call and each [setTimeout] delay; React
      state updates used only for display ([setStatus], [setDebugRequest],
      [setDebugResponse]) are not modelled. *)

From Stdlib Require Import String Ascii List ZArith QArith Bool Lia.
Import ListNotations.
Open Scope string_scope.

(** ** Data of [leonardo.ts] *)

(** [ControlNetWithWeight | ControlNetWithStrengthType]: a JS object;
    a field is [Some] when the object has that key. *)
Record ControlNetParams := mkControlNet {
  initImageId : string;
  initImageType : string;
  preprocessorId : Z;
  weight : option Q;
  strengthType : option string
}.

Record ContextImageParams := mkContextImage {
  init_image_id : string;
  context : option string
}.

(** The fields of [GenerationParams] that [handleSubmit] can set; the other
    optional fields of the interface are never set there. *)
Record GenerationParams := mkParams {
  prompt : string;
  modelId : option string;
  width : Z;
  height : Z;
  num_images : Z;
  alchemy : option bool;
  photoReal : option bool;
  presetStyle : option string;
  contrast : option Q;
  controlnets : option (list ControlNetParams);
  contextImages : option (list ContextImageParams)
}.

(** [InitialGenerationResponse]: [sdGenerationJob?: { generationId }]. *)
Record InitialGenerationResponse := mkInitial {
  sdGenerationJob : option string
}.

Inductive GenStatus := PENDING | COMPLETE | FAILED.

Record GeneratedImage := mkGenImage { img_id : string; url : string }.

Record Generation := mkGeneration {
  gen_id : string;
  status : GenStatus;
  generated_images : option (list GeneratedImage)
}.

(** [GenerationResult]: [generations_by_pk?: {...}]. *)
Record GenerationResult := mkResult {
  generations_by_pk : option Generation
}.

Record UploadInitImage := mkUploadInit {
  up_id : string;
  fields : string;
  key : string;
  up_url : string
}.

Record InitImageUploadResponse := mkUploadResp {
  uploadInitImage : UploadInitImage
}.

(** ** Errors and effects *)

Inductive err :=
| ErrMsg (msg : string)        (** [throw new Error(msg)] *)
| ErrNetwork                   (** [fetch] rejected: no response *)
| ErrJsonParse.                (** [response.json()] rejected *)

Inductive method := GET | POST.

(** Request bodies, before [JSON.stringify]. *)
Inductive payload :=
| PGeneration (p : GenerationParams)
| PInitImage (extension : string).

Record http_call := mkCall {
  call_method : method;
  call_url : string;
  call_body : option payload
}.

Inductive event :=
| EvFetch (c : http_call)
| EvSleep (ms : Z).

Definition log := list event.

(** What [fetch] gives back: a rejection, or a response with its status, its
    text and (when the text is JSON) the parsed value. *)
Inductive fetch_result (T : Type) :=
| FetchNetErr
| FetchResp (st : Z) (text : string) (json : option T).
Arguments FetchNetErr {T}.
Arguments FetchResp {T} st text json.

(** The service, one function per endpoint, each given the history. *)
Record Server := mkServer {
  srv_generate : log -> GenerationParams -> fetch_result InitialGenerationResponse;
  srv_get : log -> string -> fetch_result GenerationResult;
  srv_init_image : log -> string -> fetch_result InitImageUploadResponse
}.

(** An error-and-log monad: the computation sees the log so far. *)
Definition M (A : Type) := log -> (err + A) * log.

Definition ret {A} (a : A) : M A := fun l => (inr a, l).
Definition throw {A} (e : err) : M A := fun l => (inl e, l).
Definition bind {A B} (m : M A) (f : A -> M B) : M B :=
  fun l => match m l with
           | (inl e, l') => (inl e, l')
           | (inr a, l') => f a l'
           end.

Notation "x <- m ;; k" := (bind m (fun x => k))
  (at level 61, m at next level, right associativity).
Notation "m ;;; k" := (bind m (fun _ => k))
  (at level 61, right associativity).

(** [await new Promise(resolve => setTimeout(resolve, ms))] *)
Definition sleep (ms : Z) : M unit := fun l => (inr tt, (l ++ [EvSleep ms])%list).

(** ** Decimal rendering of a status code, for the error message *)

Fixpoint digits_of (fuel : nat) (n : N) (acc : string) : string :=
  match fuel with
  | O => acc
  | S f =>
      let d := N.modulo n 10 in
      let c := ascii_of_N (48 + d) in
      let q := N.div n 10 in
      if N.eqb q 0 then String c acc else digits_of f q (String c acc)
  end.

(** [${z}] for an integer [z]. *)
Definition show_Z (z : Z) : string :=
  match z with
  | Z0 => "0"
  | Zpos p => digits_of (Pos.size_nat p) (Npos p) ""
  | Zneg p => String "-" (digits_of (Pos.size_nat p) (Npos p) "")
  end.

(** ** [LeonardoAPI] *)

Definition baseUrl : string := "https://cloud.leonardo.ai/api/rest/v1".

(** [response.ok] *)
Definition resp_ok (st : Z) : bool := (200 <=? st)%Z && (st <=? 299)%Z.

Definition request_failed_msg (st : Z) (body : string) : string :=
  "API request failed with status " ++ show_Z st ++ ": " ++ body.

(** [request<T>(endpoint, options)]: the call is recorded, then the
    outcome of [fetch] is examined; the [catch] block only logs and
    rethrows. *)
Definition request {T} (m : method) (endpoint : string) (body : option payload)
    (answer : log -> fetch_result T) : M T :=
  fun l =>
    let l' := (l ++ [EvFetch (mkCall m (baseUrl ++ endpoint)%string body)])%list in
    match answer l with
    | FetchNetErr => (inl ErrNetwork, l')
    | FetchResp st text js =>
        if negb (resp_ok st) then (inl (ErrMsg (request_failed_msg st text)), l')
        else match js with
             | Some v => (inr v, l')
             | None => (inl ErrJsonParse, l')
             end
    end.

Section API.
Variable srv : Server.

Definition generateImage (params : GenerationParams) : M InitialGenerationResponse :=
  request POST "/generations" (Some (PGeneration params))
    (fun l => srv_generate srv l params).

Definition getGenerationById (generationId : string) : M GenerationResult :=
  request GET ("/generations/" ++ generationId) None
    (fun l => srv_get srv l generationId).

(** [String.prototype.toLowerCase], on ASCII. *)
Definition lower_char (c : ascii) : ascii :=
  let n := nat_of_ascii c in
  if (65 <=? n)%nat && (n <=? 90)%nat then ascii_of_nat (n + 32) else c.

Fixpoint toLowerCase (s : string) : string :=
  match s with
  | EmptyString => EmptyString
  | String c r => String (lower_char c) (toLowerCase r)
  end.

Definition getInitImageUploadUrl (extension : string) : M InitImageUploadResponse :=
  let ext := toLowerCase extension in
  request POST "/init-image" (Some (PInitImage ext))
    (fun l => srv_init_image srv l ext).

End API.

(** ** [pollForResult] (index.tsx) *)

Definition maxAttempts : nat := 30.
Definition pollDelayMs : Z := 10000.

Definition msg_failed : string := "Generation failed.".
Definition msg_timeout : string := "Polling timed out.".

(** [response.generations_by_pk?.status] *)
Definition observed_status (r : GenerationResult) : option GenStatus :=
  match generations_by_pk r with
  | Some g => Some (status g)
  | None => None
  end.

Section Poll.
Variable srv : Server.

(** The [while (attempts < maxAttempts)] loop; [fuel] only bounds the
    recursion, the loop condition is tested as in the source. *)
Fixpoint poll_loop (fuel attempts : nat) (generationId : string) : M GenerationResult :=
  match fuel with
  | O => throw (ErrMsg msg_timeout)
  | S fuel' =>
      if (attempts <? maxAttempts)%nat then
        response <- getGenerationById srv generationId ;;
        match observed_status response with
        | Some COMPLETE => ret response
        | Some FAILED => throw (ErrMsg msg_failed)
        | _ => sleep pollDelayMs ;;; poll_loop fuel' (S attempts) generationId
        end
      else throw (ErrMsg msg_timeout)
  end.

Definition pollForResult (generationId : string) : M GenerationResult :=
  poll_loop (S maxAttempts) 0 generationId.

End Poll.

(** ** The network part of [handleSubmit] *)

Definition msg_no_generation_id : string :=
  "Failed to get generation ID from the initial response.".
Definition msg_no_image_url : string :=
  "Generation completed, but no image URL was found.".

(** JS truthiness of a string. *)
Definition truthy (s : string) : bool := negb (String.eqb s "").

(** [finalResult.generations_by_pk?.generated_images?.[0]?.url] *)
Definition first_image_url (r : GenerationResult) : option string :=
  match generations_by_pk r with
  | Some g =>
      match generated_images g with
      | Some (i :: _) => Some (url i)
      | _ => None
      end
  | None => None
  end.

Section Submit.
Variable srv : Server.

(** From [api.generateImage(params)] to the image URL. *)
Definition generate_and_fetch (params : GenerationParams) : M string :=
  initialResponse <- generateImage srv params ;;
  match sdGenerationJob initialResponse with
  | Some generationId =>
      if truthy generationId then
        finalResult <- pollForResult srv generationId ;;
        match first_image_url finalResult with
        | Some imageUrl =>
            if truthy imageUrl then ret imageUrl else throw (ErrMsg msg_no_image_url)
        | None => throw (ErrMsg msg_no_image_url)
        end
      else throw (ErrMsg msg_no_generation_id)
  | None => throw (ErrMsg msg_no_generation_id)
  end.

End Submit.

(** ** Model configuration, as [index.tsx] reads it

    [ModelConfigEntry] is declared in [modelConfig.ts]; only the fields that
    [handleSubmit] reads are kept. [supports.guidance] is a JS object keyed
    by guidance type (an association list, keys distinct in the data),
    [supports.contextGuidance] an optional array; both are truthy whenever
    present, even when empty. *)

Record GuidanceConfig := mkGuidanceConfig {
  gc_preprocessorId : Z;
  usesWeight : bool
}.

Record Supports := mkSupports {
  sup_alchemy : bool;
  sup_contrast : bool;
  guidance : option (list (string * GuidanceConfig));
  contextGuidance : option (list string)
}.

Record ModelConfigEntry := mkConfig {
  cfg_id : option string;
  supports : Supports
}.

(** [supports.guidance?.[key]] *)
Fixpoint lookup_guidance (tbl : list (string * GuidanceConfig)) (k : string)
    : option GuidanceConfig :=
  match tbl with
  | [] => None
  | (k', v) :: r => if String.eqb k k' then Some v else lookup_guidance r k
  end.

Inductive UploadStatus := uploading | ready | error.

(** [GuidanceImage]; [file] and [previewUrl] are not read by
    [handleSubmit] and are left out. *)
Record GuidanceImage := mkGuidanceImage {
  tempId : string;
  gi_id : option string;
  gi_status : UploadStatus;
  guidanceType : string;
  gi_strengthType : string;
  gi_weight : Q;
  contextType : option string
}.

(** The React state read by [handleSubmit]. *)
Record FormState := mkForm {
  f_prompt : string;
  f_width : Z;
  f_height : Z;
  style : string;
  f_contrast : Q;
  f_alchemy : bool;
  f_photoReal : bool;
  guidanceImages : list GuidanceImage
}.

(** ** Style name to wire form: [style.toUpperCase().replace(/\s/g, '_')] *)

Definition upper_char (c : ascii) : ascii :=
  let n := nat_of_ascii c in
  if (97 <=? n)%nat && (n <=? 122)%nat then ascii_of_nat (n - 32) else c.

Fixpoint toUpperCase (s : string) : string :=
  match s with
  | EmptyString => EmptyString
  | String c r => String (upper_char c) (toUpperCase r)
  end.

(** [/\s/] on ASCII: tab, line feed, vertical tab, form feed, carriage
    return, space. *)
Definition is_space (c : ascii) : bool :=
  let n := nat_of_ascii c in
  ((9 <=? n)%nat && (n <=? 13)%nat) || (n =? 32)%nat.

Fixpoint replace_spaces (s : string) : string :=
  match s with
  | EmptyString => EmptyString
  | String c r => String (if is_space c then "_"%char else c) (replace_spaces r)
  end.

Definition preset_of_style (s : string) : string := replace_spaces (toUpperCase s).

(** ** The parameter-building part of [handleSubmit] *)

Definition dq : string := String (ascii_of_nat 34) EmptyString.

Definition msg_invalid_guidance (gt : string) : string :=
  "Invalid guidance type " ++ dq ++ gt ++ dq ++ " for this model.".

(** [img.status === 'ready' && img.id] *)
Definition is_ready (img : GuidanceImage) : bool :=
  match gi_status img, gi_id img with
  | ready, Some i => truthy i
  | _, _ => false
  end.

(** [img.id!] *)
Definition id_of (img : GuidanceImage) : string :=
  match gi_id img with Some i => i | None => "" end.

Definition context_entry (img : GuidanceImage) : ContextImageParams :=
  mkContextImage (id_of img) (contextType img).

(** The callback of [readyImages.map] in the guidance branch. *)
Definition controlnet_of (tbl : list (string * GuidanceConfig)) (img : GuidanceImage)
    : err + ControlNetParams :=
  match lookup_guidance tbl (guidanceType img) with
  | None => inl (ErrMsg (msg_invalid_guidance (guidanceType img)))
  | Some gc =>
      if usesWeight gc
      then inr (mkControlNet (id_of img) "UPLOADED" (gc_preprocessorId gc)
                  (Some (gi_weight img)) None)
      else inr (mkControlNet (id_of img) "UPLOADED" (gc_preprocessorId gc)
                  None (Some (gi_strengthType img)))
  end.

(** [Array.prototype.map] with a callback that may throw: the first throw
    (left to right) escapes. *)
Fixpoint map_err {A B} (f : A -> err + B) (l : list A) : err + list B :=
  match l with
  | [] => inr []
  | x :: r =>
      match f x with
      | inl e => inl e
      | inr y => match map_err f r with
                 | inl e => inl e
                 | inr ys => inr (y :: ys)
                 end
      end
  end.

Definition declared {A} (o : option A) : bool :=
  match o with Some _ => true | None => false end.

Definition nonempty {A} (l : list A) : bool :=
  match l with [] => false | _ => true end.

(** [params.controlnets] and [params.contextImages] after the
    [if / else if] on guidance. *)
Definition guidance_fields (s : Supports) (imgs : list GuidanceImage)
    : err + (option (list ControlNetParams) * option (list ContextImageParams)) :=
  if declared (contextGuidance s) && nonempty imgs then
    let readyImages := filter is_ready imgs in
    if nonempty readyImages
    then inr (None, Some (map context_entry readyImages))
    else inr (None, None)
  else
    match guidance s with
    | Some tbl =>
        if nonempty imgs then
          let readyImages := filter is_ready imgs in
          if nonempty readyImages then
            match map_err (controlnet_of tbl) readyImages with
            | inl e => inl e
            | inr cns => inr (Some cns, None)
            end
          else inr (None, None)
        else inr (None, None)
    | None => inr (None, None)
    end.

Definition build_params (cfg : ModelConfigEntry) (st : FormState) : err + GenerationParams :=
  let s := supports cfg in
  let alch := if sup_alchemy s then Some (f_alchemy st) else None in
  let pr := if sup_alchemy s && f_alchemy st then Some (f_photoReal st) else None in
  let ps := if sup_alchemy s && f_alchemy st && truthy (style st)
               && negb (String.eqb (style st) "None")
            then Some (preset_of_style (style st)) else None in
  let ct := if sup_contrast s then Some (f_contrast st) else None in
  match guidance_fields s (guidanceImages st) with
  | inl e => inl e
  | inr (cns, ctx) =>
      inr (mkParams (f_prompt st) (cfg_id cfg) (f_width st) (f_height st) 1
             alch pr ps ct cns ctx)
  end.

(** [handleSubmit], from its guards to the image URL. [None] is an early
    [return] that issues no request; [Some] carries the outcome. *)
Definition handleSubmit (srv : Server) (apiKey : string)
    (selectedConfig : option ModelConfigEntry) (st : FormState) (l : log)
    : option ((err + string) * log) :=
  if negb (truthy apiKey) then None
  else match selectedConfig with
       | None => None
       | Some cfg =>
           match build_params cfg st with
           | inl e => Some (inl e, l)
           | inr params => Some (generate_and_fetch srv params l)
           end
       end.

(** ** The upload-ticket step of [handleImageUpload] *)

Definition msg_upload_key : string := "API Key is required to upload images.".
Definition msg_no_extension : string := "Could not determine file extension.".

(** [s.split('.').pop()]: the text after the last ['.'], the whole string
    when there is none. *)
Fixpoint last_segment_acc (s acc : string) : string :=
  match s with
  | EmptyString => acc
  | String c r =>
      if Ascii.eqb c "."%char then last_segment_acc r ""
      else last_segment_acc r (acc ++ String c "")
  end.

Definition split_dot_pop (s : string) : string := last_segment_acc s "".

(** From the [try] of [handleImageUpload] up to the upload ticket; the
    [LeonardoAPI] constructor cannot throw once [apiKey] is truthy. *)
Definition request_upload_ticket (srv : Server) (apiKey fileName : string)
    : M InitImageUploadResponse :=
  if negb (truthy apiKey) then throw (ErrMsg msg_upload_key)
  else
    let extension := split_dot_pop fileName in
    if negb (truthy extension) then throw (ErrMsg msg_no_extension)
    else getInitImageUploadUrl srv extension.

(** ** [MODEL_CONFIG] and its helpers (the shared-configuration part of
    index.tsx) *)

Record GuidanceEntry := mkGuidanceEntry {
  ge_preprocessorId : Z;
  maxInputs : Z;
  ge_usesWeight : bool
}.

(** [ModelSupports]: every field optional. *)
Record ModelSupports := mkModelSupports {
  ms_alchemy : option bool;
  ms_contrast : option bool;
  aspectRatios : option (list string);
  ms_guidance : option (list (string * GuidanceEntry));
  ms_contextGuidance : option (list string);
  promptEnhance : option bool;
  resolutions : option (list string);
  frameInterpolation : option bool
}.

(** [ModelDefaults]: every field optional. *)
Record ModelDefaults := mkModelDefaults {
  strength : option Q;
  d_style : option string;
  d_contrast : option Q;
  numImages : option Z;
  d_photoReal : option bool;
  resolution : option string;
  d_frameInterpolation : option bool;
  d_promptEnhance : option bool
}.

Inductive NodeType := image_generation | image_edit | text_to_video.

Definition NodeType_eqb (a b : NodeType) : bool :=
  match a, b with
  | image_generation, image_generation | image_edit, image_edit
  | text_to_video, text_to_video => true
  | _, _ => false
  end.

(** The full [ModelConfigEntry] of the table. *)
Record ModelEntry := mkModelEntry {
  me_id : option string;
  nodeType : NodeType;
  family : string;
  me_supports : ModelSupports;
  defaults : ModelDefaults
}.

(** JS truthiness of an optional boolean. *)
Definition opt_true (o : option bool) : bool :=
  match o with Some b => b | None => false end.

(** The view of an entry that [handleSubmit] reads ([ModelConfigEntry]
    above): [supports.alchemy] and [supports.contrast] by truthiness,
    [supports.guidance] without [maxInputs]. *)
Definition to_config (e : ModelEntry) : ModelConfigEntry :=
  let s := me_supports e in
  mkConfig (me_id e)
    (mkSupports (opt_true (ms_alchemy s)) (opt_true (ms_contrast s))
       (option_map (map (fun kv => (fst kv,
                          mkGuidanceConfig (ge_preprocessorId (snd kv))
                                           (ge_usesWeight (snd kv)))))
          (ms_guidance s))
       (ms_contextGuidance s)).

(** [ASPECT_RATIO_DIMENSIONS], as (width, height). *)
Definition ASPECT_RATIO_DIMENSIONS : list (string * (Z * Z)) :=
  [("1:1", (1024, 1024)); ("16:9", (1456, 720)); ("9:16", (720, 1456));
   ("4:3", (1184, 880)); ("3:4", (880, 1184))]%Z.

(** [Object.keys(ASPECT_RATIO_DIMENSIONS)] *)
Definition all_ratios : list string := map fst ASPECT_RATIO_DIMENSIONS.

Definition no_defaults : ModelDefaults :=
  mkModelDefaults None None None None None None None None.

Definition style_defaults (s : string) : ModelDefaults :=
  mkModelDefaults None (Some s) None None None None None None.

Definition style_contrast_defaults (s : string) (c : Q) : ModelDefaults :=
  mkModelDefaults None (Some s) (Some c) None None None None None.

Definition image_supports (alch contr : option bool) (g : option (list (string * GuidanceEntry)))
    (cg : option (list string)) (pe : option bool) : ModelSupports :=
  mkModelSupports alch contr (Some all_ratios) g cg pe None None.

Definition kontext_context : list string :=
  ["SUBJECT_AND_STYLE"; "STYLE_ONLY"; "SUBJECT_ONLY"; "NEGATIVE"].

Definition three_refs (s c ct : Z) : list (string * GuidanceEntry) :=
  [("Style Reference", mkGuidanceEntry s 4 false);
   ("Character Reference", mkGuidanceEntry c 1 false);
   ("Content Reference", mkGuidanceEntry ct 1 false)].

Definition MODEL_CONFIG : list (string * ModelEntry) := [
  ("FLUX.1 Kontext", mkModelEntry (Some "28aeddf8-bd19-4803-80fc-79602d1a9989")
     image_generation "FLUX"
     (image_supports None (Some true) None (Some kontext_context) None)
     (mkModelDefaults (Some (6#10)) None None None None None None None));
  ("FLUX.1 Kontext Pro", mkModelEntry (Some "28aeddf8-bd19-4803-80fc-79602d1a9989")
     image_generation "FLUX"
     (image_supports None (Some true) None (Some kontext_context) (Some true))
     (mkModelDefaults None (Some "Dynamic") (Some 1) (Some 1%Z) None None None None));
  ("Flux Dev (Precision)", mkModelEntry (Some "b2614463-296c-462a-9586-aafdb8f00e36")
     image_generation "FLUX"
     (image_supports None (Some true)
        (Some [("Style Reference", mkGuidanceEntry 299 4 false);
               ("Content Reference", mkGuidanceEntry 233 1 false)]) None None)
     (style_contrast_defaults "Dynamic" 1));
  ("Flux Schnell (Speed)", mkModelEntry (Some "1dd50843-d653-4516-a8e3-f0238ee453ff")
     image_generation "FLUX"
     (image_supports None (Some true)
        (Some [("Style Reference", mkGuidanceEntry 298 4 false);
               ("Content Reference", mkGuidanceEntry 232 1 false)]) None None)
     (style_contrast_defaults "Dynamic" 1));
  ("Leonardo Phoenix 1.0", mkModelEntry (Some "de7d3faf-762f-48e0-b3b7-9d0ac3a3fcf3")
     image_generation "PHOENIX"
     (image_supports (Some true) (Some true) (Some (three_refs 166 397 364)) None None)
     (style_contrast_defaults "Dynamic" (5#2)));
  ("Leonardo Phoenix 0.9", mkModelEntry (Some "6b645e3a-d64f-4341-a6d8-7a3690fbf042")
     image_generation "PHOENIX"
     (image_supports (Some true) (Some true) (Some (three_refs 166 397 364)) None None)
     (style_contrast_defaults "Dynamic" (5#2)));
  ("Leonardo Lightning XL", mkModelEntry (Some "b24e16ff-06e3-43eb-8d33-4416c2d75876")
     image_generation "SDXL"
     (image_supports (Some false) (Some false) (Some (three_refs 67 133 100)) None None)
     (style_defaults "Dynamic"));
  ("Leonardo Anime XL", mkModelEntry (Some "e71a1c2f-4f80-4800-934f-2c68979d8cc8")
     image_generation "SDXL"
     (image_supports (Some false) (Some false) (Some (three_refs 67 133 100)) None None)
     (style_defaults "Anime"));
  ("Leonardo Diffusion XL", mkModelEntry (Some "1e60896f-3c26-4296-8ecc-53e2afecc132")
     image_generation "SDXL"
     (image_supports (Some true) (Some false) (Some (three_refs 67 133 100)) None None)
     (style_defaults "Dynamic"));
  ("Leonardo Kino XL", mkModelEntry (Some "aa77f04e-3eec-4034-9c07-d0f619684628")
     image_generation "SDXL"
     (image_supports (Some false) (Some false) (Some (three_refs 67 133 100)) None None)
     (style_defaults "Cinematic"));
  ("Leonardo Vision XL", mkModelEntry (Some "5c232a9e-9061-4777-980a-ddc8e65647c6")
     image_generation "VISION"
     (image_supports (Some true) (Some false) (Some (three_refs 67 133 100)) None None)
     (style_defaults "Dynamic"));
  ("SDXL 1.0", mkModelEntry (Some "16e7060a-803e-4df3-97ee-edcfa5dc9cc8")
     image_generation "SDXL"
     (image_supports (Some false) (Some false) (Some (three_refs 67 133 100)) None None)
     (style_defaults "Dynamic"));
  ("AlbedoBase XL", mkModelEntry (Some "2067ae52-33fd-4a82-bb92-c2c55e7d2786")
     image_generation "SDXL"
     (image_supports (Some false) (Some false) (Some (three_refs 67 133 100)) None None)
     (style_defaults "Dynamic"));
  ("Lucid Realism", mkModelEntry (Some "05ce0082-2d80-4a2d-8653-4d1c85e2418e")
     image_generation "CUSTOM"
     (image_supports (Some false) (Some false)
        (Some [("Style Reference", mkGuidanceEntry 431 4 false);
               ("Content Reference", mkGuidanceEntry 430 1 false)]) None None)
     (style_defaults "Photography"));
  ("Lucid Origin", mkModelEntry (Some "7b592283-e8a7-4c5a-9ba6-d18c31f258b9")
     image_generation "CUSTOM"
     (image_supports (Some false) (Some false)
        (Some [("Style Reference", mkGuidanceEntry 431 4 false)]) None None)
     (style_defaults "Vibrant"));
  ("MOTION2", mkModelEntry None text_to_video "MOTION"
     (mkModelSupports None None None None None (Some true)
        (Some ["RESOLUTION_480"; "RESOLUTION_720"]) (Some true))
     (mkModelDefaults None None None None None (Some "RESOLUTION_480") (Some false) (Some false)));
  ("VEO3", mkModelEntry None text_to_video "VEO"
     (mkModelSupports None None None None None (Some true)
        (Some ["RESOLUTION_720"]) (Some true))
     (mkModelDefaults None None None None None (Some "RESOLUTION_720") (Some false) (Some false)))
].

(** [MODEL_CONFIG[name]] for a name among the object's own keys. Members
    inherited from [Object.prototype] ([toString], [constructor], ...)
    are not modelled: a name outside the table gives [None] here, so
    statements about these lookups are made for the table's keys. *)
Fixpoint lookup_str {A} (tbl : list (string * A)) (k : string) : option A :=
  match tbl with
  | [] => None
  | (k', v) :: r => if String.eqb k k' then Some v else lookup_str r k
  end.

Definition getModelsForNodeType (nt : NodeType) : list string :=
  map fst (filter (fun kv => NodeType_eqb (nodeType (snd kv)) nt) MODEL_CONFIG).

(** [config?.id || null] *)
Definition getModelId (modelName : string) : option string :=
  match lookup_str MODEL_CONFIG modelName with
  | Some c => match me_id c with
              | Some i => if truthy i then Some i else None
              | None => None
              end
  | None => None
  end.

Definition getModelConfig (modelName : string) : option ModelEntry :=
  lookup_str MODEL_CONFIG modelName.

(** [MODEL_ID_MAP]: the entries whose [id !== null]. *)
Definition MODEL_ID_MAP : list (string * string) :=
  flat_map (fun kv => match me_id (snd kv) with
                      | Some i => [(fst kv, i)]
                      | None => []
                      end) MODEL_CONFIG.

(** [GUIDANCE_STRENGTH_TYPES] *)
Definition GUIDANCE_STRENGTH_TYPES : list (string * list string) :=
  [("Style Reference", ["Low"; "Mid"; "High"; "Ultra"; "Max"]);
   ("Character Reference", ["Low"; "Mid"; "High"]);
   ("Content Reference", ["Low"; "Mid"; "High"])].

(** ** Guidance-image list operations of [App] *)

(** [GUIDANCE_STRENGTH_TYPES[g] || []] *)
Definition strengths_of (g : string) : list string :=
  match lookup_str GUIDANCE_STRENGTH_TYPES g with Some l => l | None => [] end.

(** The strength type [updateGuidanceImage] resets to on a new guidance
    type: ['Mid'] when listed, else the first listed one, else [''].  *)
Definition strength_reset (g : string) : string :=
  let validStrengths := strengths_of g in
  if existsb (String.eqb "Mid") validStrengths then "Mid"
  else match validStrengths with
       | s :: _ => if truthy s then s else ""
       | [] => ""
       end.

(** [Partial<GuidanceImage>] as the form controls produce it. *)
Record GuidanceUpdate := mkUpdate {
  u_guidanceType : option string;
  u_strengthType : option string;
  u_weight : option Q;
  u_contextType : option string
}.

Definition override {A} (o : option A) (a : A) : A :=
  match o with Some v => v | None => a end.

(** [{ ...img, ...updates }] *)
Definition apply_update (img : GuidanceImage) (u : GuidanceUpdate) : GuidanceImage :=
  mkGuidanceImage (tempId img) (gi_id img) (gi_status img)
    (override (u_guidanceType u) (guidanceType img))
    (override (u_strengthType u) (gi_strengthType img))
    (override (u_weight u) (gi_weight img))
    (match u_contextType u with Some c => Some c | None => contextType img end).

(** The [if ('guidanceType' in updates && updates.guidanceType)] block. *)
Definition normalize_update (u : GuidanceUpdate) : GuidanceUpdate :=
  match u_guidanceType u with
  | Some g =>
      if truthy g
      then mkUpdate (Some g) (Some (strength_reset g)) (u_weight u) (u_contextType u)
      else u
  | None => u
  end.

Definition updateGuidanceImage (t : string) (updates : GuidanceUpdate)
    (imgs : list GuidanceImage) : list GuidanceImage :=
  let u := normalize_update updates in
  map (fun img => if String.eqb (tempId img) t then apply_update img u else img) imgs.

Definition removeGuidanceImage (t : string) (imgs : list GuidanceImage)
    : list GuidanceImage :=
  filter (fun img => negb (String.eqb (tempId img) t)) imgs.

(** ** [handleImageUpload] *)

(** The image [handleImageUpload] appends before uploading, for the
    selected configuration. *)
Definition new_guidance_image (selectedConfig : option ModelConfigEntry) (t : string)
    : GuidanceImage :=
  let supportedGuidance :=
    match selectedConfig with
    | Some c => match guidance (supports c) with Some tbl => map fst tbl | None => [] end
    | None => []
    end in
  let supportedContextGuidance :=
    match selectedConfig with
    | Some c => match contextGuidance (supports c) with Some l => l | None => [] end
    | None => []
    end in
  let defaultGuidanceType := match supportedGuidance with g :: _ => g | [] => "" end in
  let defaultStrengthType :=
    if truthy defaultGuidanceType then
      match lookup_str GUIDANCE_STRENGTH_TYPES defaultGuidanceType with
      | Some l => match nth_error l 1 with
                  | Some s => if truthy s then s else "Mid"
                  | None => "Mid"
                  end
      | None => "Mid"
      end
    else "Mid" in
  let defaultContextType := match supportedContextGuidance with c :: _ => c | [] => "" end in
  mkGuidanceImage t None uploading defaultGuidanceType defaultStrengthType 1
    (Some defaultContextType).

Record File := mkFile { file_name : string; file_data : string }.

Inductive FormValue := FVString (s : string) | FVFile (f : File).

(** What the [no-cors] [fetch] to S3 gives: a rejection, or an opaque
    response whose status the code cannot read. *)
Inductive s3_result := S3Rejected | S3Opaque (st : Z).

Definition msg_s3_network : string := "Upload failed due to a network error.".
Definition msg_no_image_id : string := "Could not retrieve image ID after upload.".

(** The [FormData] of [uploadImageToS3]: the ticket fields in order, then
    the file. *)
Definition s3_form (flds : list (string * string)) (file : File)
    : list (string * FormValue) :=
  map (fun kv => (fst kv, FVString (snd kv))) flds ++ [("file", FVFile file)].

(** [uploadImageToS3], given what its [fetch] gives. *)
Definition uploadImageToS3 (fetched : s3_result) : err + unit :=
  match fetched with
  | S3Rejected => inl (ErrMsg msg_s3_network)
  | S3Opaque _ => inr tt
  end.

Section Upload.
Variable srv : Server.
(** [JSON.parse(fieldsStr)] on the ticket's field string. *)
Variable parse_fields : string -> option (list (string * string)).
(** The S3 endpoint, given the history, the URL and the form. *)
Variable s3 : log -> string -> list (string * FormValue) -> s3_result.

(** The [try] block of [handleImageUpload], up to the image id it stores. *)
Definition upload_steps (apiKey : string) (file : File) : M string :=
  uploadUrlResponse <- request_upload_ticket srv apiKey (file_name file) ;;
  let u := uploadInitImage uploadUrlResponse in
  fun l =>
    match parse_fields (fields u) with
    | None => (inl ErrJsonParse, l)
    | Some flds =>
        match uploadImageToS3 (s3 l (up_url u) (s3_form flds file)) with
        | inl e => (inl e, l)
        | inr _ =>
            if truthy (up_id u) then (inr (up_id u), l)
            else (inl (ErrMsg msg_no_image_id), l)
        end
    end.

End Upload.

(** The final [setGuidanceImages(prev => prev.map(...))] of
    [handleImageUpload], applied to whatever the list is when the upload
    settles; the [error] message field, used only for display, is not
    modelled. *)
Definition finish_upload (t : string) (outcome : err + string)
    (imgs : list GuidanceImage) : list GuidanceImage :=
  map (fun img =>
         if String.eqb (tempId img) t then
           match outcome with
           | inr i => mkGuidanceImage (tempId img) (Some i) ready (guidanceType img)
                        (gi_strengthType img) (gi_weight img) (contextType img)
           | inl _ => mkGuidanceImage (tempId img) (gi_id img) error (guidanceType img)
                        (gi_strengthType img) (gi_weight img) (contextType img)
           end
         else img) imgs.

(** ** The settings state of [App] and its effects

    The React state that the model, aspect-ratio and alchemy controls and
    the three [useEffect]s touch. [aspectRatio] is [None] when the model
    effect sets it to [undefined] (an empty [aspectRatios] list). *)
Record UIState := mkUI {
  ui_modelName : string;
  ui_config : option ModelEntry;
  aspectRatio : option string;
  ui_width : Z;
  ui_height : Z;
  ui_style : string;
  ui_contrast : Q;
  ui_alchemy : bool;
  ui_photoReal : bool;
  ui_images : list GuidanceImage
}.

Definition set_alchemy_photoReal (st : UIState) (a p : bool) : UIState :=
  mkUI (ui_modelName st) (ui_config st) (aspectRatio st) (ui_width st) (ui_height st)
    (ui_style st) (ui_contrast st) a p (ui_images st).

Definition set_dims (st : UIState) (w h : Z) : UIState :=
  mkUI (ui_modelName st) (ui_config st) (aspectRatio st) w h
    (ui_style st) (ui_contrast st) (ui_alchemy st) (ui_photoReal st) (ui_images st).

(** [useEffect(() => { if (!alchemy) setPhotoReal(false); }, [alchemy])] *)
Definition alchemy_effect (st : UIState) : UIState :=
  if ui_alchemy st then st else set_alchemy_photoReal st (ui_alchemy st) false.

(** [useEffect(() => { dimensions = ASPECT_RATIO_DIMENSIONS[aspectRatio]; ... },
    [aspectRatio])] *)
Definition aspect_effect (st : UIState) : UIState :=
  match aspectRatio st with
  | Some r => match lookup_str ASPECT_RATIO_DIMENSIONS r with
              | Some (w, h) => set_dims st w h
              | None => st
              end
  | None => st
  end.

(** [defaults.contrast || 1.0] *)
Definition default_contrast (d : ModelDefaults) : Q :=
  match d_contrast d with
  | Some c => if Qeq_bool c 0 then 1 else c
  | None => 1
  end.

(** The default ratio: ['1:1'] when supported, else the first one. *)
Definition default_ratio (s : ModelSupports) : option string :=
  let supportedRatios := match aspectRatios s with Some l => l | None => ["1:1"] end in
  if existsb (String.eqb "1:1") supportedRatios then Some "1:1"
  else match supportedRatios with r :: _ => Some r | [] => None end.

(** The body of [useEffect(..., [modelName])]. *)
Definition model_effect (st : UIState) : UIState :=
  match getModelConfig (ui_modelName st) with
  | None => st
  | Some c =>
      let d := defaults c in
      let s := me_supports c in
      let alchemySupported := opt_true (ms_alchemy s) in
      mkUI (ui_modelName st) (Some c) (default_ratio s) (ui_width st) (ui_height st)
        (match d_style d with Some v => if truthy v then v else "None" | None => "None" end)
        (if opt_true (ms_contrast s) then default_contrast d else ui_contrast st)
        alchemySupported (alchemySupported && opt_true (d_photoReal d)) []
  end.

(** After a render, the aspect and alchemy effects run when their
    dependency changed. *)
Definition option_string_eqb (a b : option string) : bool :=
  match a, b with
  | Some x, Some y => String.eqb x y
  | None, None => true
  | _, _ => false
  end.

Definition settle (before after : UIState) : UIState :=
  let st1 := if Bool.eqb (ui_alchemy before) (ui_alchemy after) then after
             else alchemy_effect after in
  if option_string_eqb (aspectRatio before) (aspectRatio st1) then st1
  else aspect_effect st1.

(** The user actions on the settings controls. *)
Inductive ui_action :=
| SetModel (name : string)
| SetAspect (r : string)
| SetAlchemy (b : bool)
| SetPhotoReal (b : bool)
| SetStyle (s : string).

Definition cfg_alchemy (st : UIState) : bool :=
  match ui_config st with Some c => opt_true (ms_alchemy (me_supports c)) | None => false end.

Definition cfg_ratios (st : UIState) : list string :=
  match ui_config st with
  | Some c => match aspectRatios (me_supports c) with Some l => l | None => [] end
  | None => []
  end.

(** One action; an action whose control is not rendered (or offers no such
    option) leaves the state as it is. The model select offers
    [getModelsForNodeType('image-generation')]. *)
Definition ui_step (st : UIState) (a : ui_action) : UIState :=
  match a with
  | SetModel n =>
      if negb (existsb (String.eqb n) (getModelsForNodeType image_generation)) then st
      else if String.eqb n (ui_modelName st) then st
      else
        let st1 := mkUI n (ui_config st) (aspectRatio st) (ui_width st) (ui_height st)
                     (ui_style st) (ui_contrast st) (ui_alchemy st) (ui_photoReal st)
                     (ui_images st) in
        settle st (model_effect st1)
  | SetAspect r =>
      if negb (existsb (String.eqb r) (cfg_ratios st)) then st
      else settle st (mkUI (ui_modelName st) (ui_config st) (Some r) (ui_width st)
                        (ui_height st) (ui_style st) (ui_contrast st) (ui_alchemy st)
                        (ui_photoReal st) (ui_images st))
  | SetAlchemy b =>
      if negb (cfg_alchemy st) then st
      else settle st (set_alchemy_photoReal st b (ui_photoReal st))
  | SetPhotoReal b =>
      if negb (cfg_alchemy st && ui_alchemy st) then st
      else set_alchemy_photoReal st (ui_alchemy st) b
  | SetStyle s =>
      if negb (cfg_alchemy st && ui_alchemy st) then st
      else mkUI (ui_modelName st) (ui_config st) (aspectRatio st) (ui_width st)
             (ui_height st) s (ui_contrast st) (ui_alchemy st) (ui_photoReal st)
             (ui_images st)
  end.

(** The [useState] initial values; on mount every effect runs once. *)
Definition ui_initial_state : UIState :=
  let n := match getModelsForNodeType image_generation with m :: _ => m | [] => "" end in
  mkUI n (getModelConfig n) (Some "1:1") 1024 1024 "None" 1 false false [].

Definition ui_mounted : UIState :=
  alchemy_effect (aspect_effect (model_effect ui_initial_state)).

Definition ui_run (st : UIState) (acts : list ui_action) : UIState :=
  fold_left ui_step acts st.

(** ** Test data *)

Definition tbl_sample : list (string * GuidanceConfig) :=
  [("Style Reference", mkGuidanceConfig 67 false); ("Depth", mkGuidanceConfig 19 true)].

Definition cfg_guidance : ModelConfigEntry :=
  mkConfig (Some "m1") (mkSupports true true (Some tbl_sample) None).

Definition cfg_context : ModelConfigEntry :=
  mkConfig None (mkSupports false false None (Some ["Character"])).

Definition img_style : GuidanceImage :=
  mkGuidanceImage "t1" (Some "i1") ready "Style Reference" "Mid" 1 (Some "Character").
Definition img_depth : GuidanceImage :=
  mkGuidanceImage "t2" (Some "i2") ready "Depth" "High" (3#2) (Some "Character").
Definition img_pending : GuidanceImage :=
  mkGuidanceImage "t3" None uploading "Depth" "Mid" 1 (Some "Character").

Definition form_sample : FormState :=
  mkForm "x" 1024 1024 "Sketch Bw" 1 true true [img_style; img_depth; img_pending].

Example preset_of_style_sketch_bw : preset_of_style "Sketch Bw" = "SKETCH_BW".
Proof. reflexivity. Qed.

Example build_guidance_sample :
  option_map controlnets (match build_params cfg_guidance form_sample with
                          | inr p => Some p | inl _ => None end)
  = Some (Some [mkControlNet "i1" "UPLOADED" 67 None (Some "Mid");
                mkControlNet "i2" "UPLOADED" 19 (Some (3#2)) None]).
Proof. reflexivity. Qed.

(** ** Builder lemmas *)

Lemma map_err_Forall2 {A B} (f : A -> err + B) (l : list A) (l' : list B) :
  map_err f l = inr l' -> Forall2 (fun x y => f x = inr y) l l'.
Proof.
  revert l'; induction l as [|x r IH]; intros l' H; simpl in H.
  - injection H as <-. constructor.
  - destruct (f x) as [e|y] eqn:Ef; [discriminate|].
    destruct (map_err f r) as [e|ys] eqn:Er; [discriminate|].
    injection H as <-. constructor; auto.
Qed.

Lemma guidance_fields_controlnets s imgs cns ctx :
  guidance_fields s imgs = inr (Some cns, ctx) ->
  exists tbl, guidance s = Some tbl /\
    map_err (controlnet_of tbl) (filter is_ready imgs) = inr cns.
Proof.
  unfold guidance_fields.
  destruct (declared (contextGuidance s) && nonempty imgs).
  - destruct (nonempty (filter is_ready imgs)); discriminate.
  - destruct (guidance s) as [tbl|]; [|discriminate].
    destruct (nonempty imgs); [|discriminate].
    destruct (nonempty (filter is_ready imgs)); [|discriminate].
    destruct (map_err (controlnet_of tbl) (filter is_ready imgs)) eqn:E;
      [discriminate|].
    intros H; injection H as <- _. eauto.
Qed.

Lemma build_params_fields cfg st p :
  build_params cfg st = inr p ->
  guidance_fields (supports cfg) (guidanceImages st) = inr (controlnets p, contextImages p)
  /\ alchemy p = (if sup_alchemy (supports cfg) then Some (f_alchemy st) else None)
  /\ photoReal p = (if sup_alchemy (supports cfg) && f_alchemy st
                    then Some (f_photoReal st) else None)
  /\ presetStyle p = (if sup_alchemy (supports cfg) && f_alchemy st && truthy (style st)
                         && negb (String.eqb (style st) "None")
                      then Some (preset_of_style (style st)) else None).
Proof.
  unfold build_params.
  destruct (guidance_fields (supports cfg) (guidanceImages st)) as [e|[cns ctx]] eqn:E;
    [discriminate|].
  intros H; injection H as <-. simpl. auto.
Qed.

(** The wire form of a style as §4.3 words it: every character upper-cased,
    every whitespace character replaced by an underscore. *)
Fixpoint spec_wire_style (s : string) : string :=
  match s with
  | EmptyString => EmptyString
  | String c r =>
      String (if is_space c then "_"%char else upper_char c) (spec_wire_style r)
  end.

Lemma is_space_upper_char c : is_space (upper_char c) = is_space c.
Proof.
  destruct c as [b0 b1 b2 b3 b4 b5 b6 b7].
  destruct b0, b1, b2, b3, b4, b5, b6, b7; reflexivity.
Qed.

Lemma preset_of_style_spec s : preset_of_style s = spec_wire_style s.
Proof.
  unfold preset_of_style.
  induction s as [|c r IH]; simpl; [reflexivity|].
  rewrite IH, is_space_upper_char. reflexivity.
Qed.

(** The shape of one [controlnets] entry built from a ready image [img]
    whose guidance type has the table entry [gc]. *)
Definition entry_shape (tbl : list (string * GuidanceConfig))
    (img : GuidanceImage) (cn : ControlNetParams) : Prop :=
  exists gc,
    lookup_guidance tbl (guidanceType img) = Some gc /\
    initImageId cn = id_of img /\ initImageType cn = "UPLOADED" /\
    preprocessorId cn = gc_preprocessorId gc /\
    (usesWeight gc = true ->
       weight cn = Some (gi_weight img) /\ strengthType cn = None) /\
    (usesWeight gc = false ->
       weight cn = None /\ strengthType cn = Some (gi_strengthType img)).

Definition one_strength_field (cn : ControlNetParams) : Prop :=
  (weight cn <> None /\ strengthType cn = None) \/
  (weight cn = None /\ strengthType cn <> None).

Definition cns_sample : list ControlNetParams :=
  [mkControlNet "i1" "UPLOADED" 67 None (Some "Mid");
   mkControlNet "i2" "UPLOADED" 19 (Some (3#2)) None].

Definition params_sample : GenerationParams :=
  mkParams "x" (Some "m1") 1024 1024 1 (Some true) (Some true) (Some "SKETCH_BW")
    (Some 1) (Some cns_sample) None.

Lemma controlnet_of_shape tbl img cn :
  controlnet_of tbl img = inr cn -> entry_shape tbl img cn /\ one_strength_field cn.
Proof.
  unfold controlnet_of, entry_shape, one_strength_field.
  destruct (lookup_guidance tbl (guidanceType img)) as [gc|]; [|discriminate].
  destruct (usesWeight gc) eqn:Ew; intros H; injection H as <-; simpl;
    split; try (exists gc; repeat split; congruence); [left|right];
    split; congruence.
Qed.

(** C1. Every entry of the emitted [controlnets] list comes from one ready
    image, in order, and carries [weight] and no [strengthType] when the
    guidance-table entry of the image's type has [usesWeight] true, and
    [strengthType] and no [weight] when it is false: exactly one of the two
    fields, never both. *)
Theorem controlnets_exactly_one_strength_field cfg st p cns :
  build_params cfg st = inr p ->
  controlnets p = Some cns ->
  (exists tbl, guidance (supports cfg) = Some tbl /\
     Forall2 (entry_shape tbl) (filter is_ready (guidanceImages st)) cns) /\
  Forall one_strength_field cns.
Proof.
  intros Hb Hc.
  destruct (build_params_fields cfg st p Hb) as [Hg _].
  rewrite Hc in Hg.
  destruct (guidance_fields_controlnets _ _ _ _ Hg) as [tbl [Ht Hm]].
  pose proof (map_err_Forall2 _ _ _ Hm) as HF.
  split.
  - exists tbl. split; [exact Ht|].
    eapply Forall2_impl; [|exact HF].
    intros img cn Hx. apply (controlnet_of_shape _ _ _ Hx).
  - clear - HF. induction HF; constructor; auto.
    apply (controlnet_of_shape _ _ _ H).
Qed.

Lemma controlnets_exactly_one_strength_field_witness :
  build_params cfg_guidance form_sample = inr params_sample /\
  ((exists tbl, guidance (supports cfg_guidance) = Some tbl /\
     Forall2 (entry_shape tbl) (filter is_ready (guidanceImages form_sample)) cns_sample) /\
   Forall one_strength_field cns_sample).
Proof.
  split; [reflexivity|].
  apply (controlnets_exactly_one_strength_field cfg_guidance form_sample params_sample);
    reflexivity.
Defined.

(** C2. For a model whose capabilities declare [contextGuidance], the
    builder succeeds, emits no [controlnets], and emits [contextImages]
    with one [{init_image_id, context}] entry per ready image, in order,
    whenever at least one image is ready. *)
Theorem context_guidance_takes_priority cfg st cg :
  contextGuidance (supports cfg) = Some cg ->
  exists p, build_params cfg st = inr p /\
    controlnets p = None /\
    (filter is_ready (guidanceImages st) <> [] ->
     contextImages p = Some (map context_entry (filter is_ready (guidanceImages st)))).
Proof.
  intros Hcg. unfold build_params, guidance_fields. rewrite Hcg.
  cbn [declared andb].
  destruct (guidanceImages st) as [|img imgs]; cbn [nonempty].
  - destruct (guidance (supports cfg)); eexists;
      (split; [reflexivity| split; [reflexivity|]]);
      intros H; contradiction H; reflexivity.
  - destruct (filter is_ready (img :: imgs)) as [|r rs]; cbn [nonempty];
      eexists; (split; [reflexivity| split; [reflexivity|]]).
    + intros H; contradiction H; reflexivity.
    + intros _; reflexivity.
Qed.

Lemma context_guidance_takes_priority_witness :
  contextGuidance (supports cfg_context) = Some ["Character"] /\
  exists p, build_params cfg_context form_sample = inr p /\
    controlnets p = None /\
    (filter is_ready (guidanceImages form_sample) <> [] ->
     contextImages p = Some (map context_entry (filter is_ready (guidanceImages form_sample)))).
Proof.
  split; [reflexivity|].
  apply (context_guidance_takes_priority cfg_context form_sample ["Character"]).
  reflexivity.
Defined.

(** C3. The built body has the [photoReal] key exactly when the model
    supports alchemy and the alchemy toggle is on; whenever [photoReal] is
    present, [alchemy: true] is present too. *)
Theorem photoReal_iff_alchemy_supported_and_enabled cfg st p :
  build_params cfg st = inr p ->
  (photoReal p <> None <->
     sup_alchemy (supports cfg) = true /\ f_alchemy st = true) /\
  (photoReal p <> None -> alchemy p = Some true).
Proof.
  intros Hb.
  destruct (build_params_fields cfg st p Hb) as [_ [Ha [Hp _]]].
  rewrite Hp, Ha.
  destruct (sup_alchemy (supports cfg)), (f_alchemy st); simpl;
    split; try split; intros; try congruence; intuition discriminate.
Qed.

Lemma photoReal_iff_alchemy_supported_and_enabled_witness :
  build_params cfg_guidance form_sample = inr params_sample /\
  ((photoReal params_sample <> None <->
      sup_alchemy (supports cfg_guidance) = true /\ f_alchemy form_sample = true) /\
   (photoReal params_sample <> None -> alchemy params_sample = Some true)).
Proof.
  split; [reflexivity|].
  apply (photoReal_iff_alchemy_supported_and_enabled cfg_guidance form_sample
           params_sample).
  reflexivity.
Defined.

(** C4. A [presetStyle] field is present only when alchemy is enabled and
    the chosen style is not "None", and its value is the style name with
    every character upper-cased and every whitespace character replaced by
    an underscore. *)
Theorem presetStyle_only_when_alchemy_and_style cfg st p v :
  build_params cfg st = inr p ->
  presetStyle p = Some v ->
  f_alchemy st = true /\ style st <> "None" /\ v = spec_wire_style (style st).
Proof.
  intros Hb Hv.
  destruct (build_params_fields cfg st p Hb) as [_ [_ [_ Hs]]].
  rewrite Hv in Hs.
  destruct (sup_alchemy (supports cfg)), (f_alchemy st), (truthy (style st)),
    (String.eqb (style st) "None") eqn:Eq; simpl in Hs; try discriminate.
  injection Hs as ->. repeat split.
  - intros Hn. rewrite Hn in Eq. discriminate.
  - apply preset_of_style_spec.
Qed.

Lemma presetStyle_only_when_alchemy_and_style_witness :
  build_params cfg_guidance form_sample = inr params_sample /\
  presetStyle params_sample = Some "SKETCH_BW" /\
  (f_alchemy form_sample = true /\ style form_sample <> "None" /\
   "SKETCH_BW" = spec_wire_style (style form_sample)).
Proof.
  split; [reflexivity|]. split; [reflexivity|].
  apply (presetStyle_only_when_alchemy_and_style cfg_guidance form_sample
           params_sample); reflexivity.
Defined.

(** ** Polling lemmas *)

Definition get_event (gid : string) : event :=
  EvFetch (mkCall GET (baseUrl ++ ("/generations/" ++ gid)) None).

Open Scope nat_scope.
Open Scope list_scope.

Definition is_get (e : event) : bool :=
  match e with
  | EvFetch c => match call_method c with GET => true | POST => false end
  | EvSleep _ => false
  end.

(** Number of status requests ([GET]s) in a log. *)
Definition count_gets (l : log) : nat := length (filter is_get l).

(** The poll answer at history [h] is a successful response that observes
    status [PENDING]. *)
Definition pending_at (srv : Server) (gid : string) (h : log) : Prop :=
  exists st t r, resp_ok st = true /\ srv_get srv h gid = FetchResp st t (Some r) /\
    observed_status r = Some PENDING.

Definition complete_at (srv : Server) (gid : string) (r : GenerationResult) (h : log)
    : Prop :=
  exists st t, resp_ok st = true /\ srv_get srv h gid = FetchResp st t (Some r) /\
    observed_status r = Some COMPLETE.

Definition poll_block (gid : string) : log := [get_event gid; EvSleep pollDelayMs].

(** What the loop does with the outcome of one status request: [Some]
    when it returns or throws, [None] when it sleeps and polls again. *)
Definition stop_outcome (x : err + GenerationResult) : option (err + GenerationResult) :=
  match x with
  | inl e => Some (inl e)
  | inr r => match observed_status r with
             | Some COMPLETE => Some (inr r)
             | Some FAILED => Some (inl (ErrMsg msg_failed))
             | _ => None
             end
  end.

Lemma count_gets_app l1 l2 : count_gets (l1 ++ l2) = count_gets l1 + count_gets l2.
Proof. unfold count_gets. rewrite filter_app, length_app. reflexivity. Qed.

Lemma count_gets_get gid : count_gets [get_event gid] = 1.
Proof. reflexivity. Qed.

Lemma getGenerationById_log srv gid l :
  snd (getGenerationById srv gid l) = l ++ [get_event gid].
Proof.
  unfold getGenerationById, request.
  destruct (srv_get srv l gid) as [|st t [v|]]; [reflexivity| |];
    destruct (negb (resp_ok st)); reflexivity.
Qed.

Lemma getGenerationById_ok srv gid l st t r :
  srv_get srv l gid = FetchResp st t (Some r) -> resp_ok st = true ->
  getGenerationById srv gid l = (inr r, l ++ [get_event gid]).
Proof.
  intros Hs Ho. unfold getGenerationById, request. rewrite Hs, Ho. reflexivity.
Qed.

Lemma poll_loop_extends srv gid : forall fuel attempts l,
  exists ext, snd (poll_loop srv fuel attempts gid l) = l ++ ext /\
    count_gets ext <= maxAttempts - attempts.
Proof.
  induction fuel as [|fuel IH]; intros attempts l; cbn [poll_loop].
  - exists []. rewrite app_nil_r. split; [reflexivity| apply Nat.le_0_l].
  - destruct (attempts <? maxAttempts)%nat eqn:Ea.
    + apply Nat.ltb_lt in Ea. unfold maxAttempts in *. unfold bind.
      pose proof (getGenerationById_log srv gid l) as Hl.
      destruct (getGenerationById srv gid l) as [[e|r] l1]; cbn [snd] in Hl; subst l1.
      * exists [get_event gid]. split; [reflexivity|].
        rewrite count_gets_get. lia.
      * destruct (observed_status r) as [[| |]|]; unfold ret, throw, sleep;
          try (exists [get_event gid]; split; [reflexivity|];
               rewrite count_gets_get; lia).
        all: destruct (IH (S attempts) ((l ++ [get_event gid]) ++ [EvSleep pollDelayMs]))
               as [ext [He Hc]];
             exists (get_event gid :: EvSleep pollDelayMs :: ext);
             rewrite He, <- !app_assoc; split; [reflexivity|];
             change (get_event gid :: EvSleep pollDelayMs :: ext)
               with ([get_event gid] ++ [EvSleep pollDelayMs] ++ ext);
             rewrite !count_gets_app, count_gets_get;
             change (count_gets [EvSleep pollDelayMs]) with 0; lia.
    + exists []. rewrite app_nil_r. split; [reflexivity| apply Nat.le_0_l].
Qed.

Lemma poll_loop_all_pending srv gid l0 : forall n attempts l,
  attempts + n = maxAttempts ->
  count_gets l = count_gets l0 + attempts ->
  (forall i h, i < maxAttempts -> count_gets h = count_gets l0 + i -> pending_at srv gid h) ->
  poll_loop srv (S n) attempts gid l
  = (inl (ErrMsg msg_timeout), l ++ concat (repeat (poll_block gid) n)).
Proof.
  induction n as [|n IH]; intros attempts l Hn Hc Hp.
  - replace attempts with maxAttempts by lia. simpl.
    rewrite app_nil_r. reflexivity.
  - cbn [poll_loop].
    assert (Ea : (attempts <? maxAttempts)%nat = true) by (apply Nat.ltb_lt; lia).
    rewrite Ea. unfold bind.
    destruct (Hp attempts l ltac:(lia) Hc) as [st [t [r [Ho [Hs Hr]]]]].
    rewrite (getGenerationById_ok _ _ _ _ _ _ Hs Ho), Hr.
    unfold sleep.
    rewrite (IH (S attempts)); [| lia | | exact Hp].
    + rewrite <- !app_assoc. reflexivity.
    + rewrite !count_gets_app, Hc, count_gets_get.
      change (count_gets [EvSleep pollDelayMs]) with 0. lia.
Qed.

Lemma poll_loop_complete srv gid l0 r : forall n attempts m l,
  attempts + m = maxAttempts ->
  attempts + n < maxAttempts ->
  count_gets l = count_gets l0 + attempts ->
  (forall i h, i < attempts + n -> count_gets h = count_gets l0 + i -> pending_at srv gid h) ->
  (forall h, count_gets h = count_gets l0 + (attempts + n) -> complete_at srv gid r h) ->
  fst (poll_loop srv (S m) attempts gid l) = inr r.
Proof.
  induction n as [|n IH]; intros attempts m l Hm Hn Hc Hp Hq;
    cbn [poll_loop];
    (assert (Ea : (attempts <? maxAttempts)%nat = true) by (apply Nat.ltb_lt; lia));
    rewrite Ea; unfold bind.
  - destruct (Hq l ltac:(lia)) as [st [t [Ho [Hs Hr]]]].
    rewrite (getGenerationById_ok _ _ _ _ _ _ Hs Ho), Hr. reflexivity.
  - destruct (Hp attempts l ltac:(lia) Hc) as [st [t [r' [Ho [Hs Hr]]]]].
    rewrite (getGenerationById_ok _ _ _ _ _ _ Hs Ho), Hr.
    unfold sleep.
    destruct m as [|m]; [lia|].
    apply (IH (S attempts) m); try lia.
    + rewrite !count_gets_app, Hc, count_gets_get.
      change (count_gets [EvSleep pollDelayMs]) with 0. lia.
    + intros i h Hi. apply Hp. lia.
    + intros h Hh. apply Hq. lia.
Qed.

Lemma pollForResult_all_pending srv gid l :
  (forall i h, i < maxAttempts -> count_gets h = count_gets l + i -> pending_at srv gid h) ->
  pollForResult srv gid l
  = (inl (ErrMsg msg_timeout), l ++ concat (repeat (poll_block gid) maxAttempts)).
Proof.
  intros Hp. unfold pollForResult.
  apply (poll_loop_all_pending srv gid l maxAttempts 0 l); [lia | lia | exact Hp].
Qed.

(** ** Sample services *)

Definition result_with (s : GenStatus) (imgs : option (list GeneratedImage))
    : GenerationResult :=
  mkResult (Some (mkGeneration "g1" s imgs)).

Definition result_done : GenerationResult :=
  result_with COMPLETE (Some [mkGenImage "i1" "http://x/y.png"]).

Definition ticket_sample : InitImageUploadResponse :=
  mkUploadResp (mkUploadInit "u1" "{}" "k1" "https://s3.example/upload").

(** Submission returns [gid]; polls answer PENDING until [k] status
    requests have been made, then [done_r]. *)
Definition srv_sample (gid : string) (k : nat) (done_r : GenerationResult) : Server :=
  mkServer
    (fun _ _ => FetchResp 200 "" (Some (mkInitial (Some gid))))
    (fun h _ => if (count_gets h <? k)%nat
                then FetchResp 200 "" (Some (result_with PENDING None))
                else FetchResp 200 "" (Some done_r))
    (fun _ _ => FetchResp 200 "" (Some ticket_sample)).

(** A service whose submission response has no [sdGenerationJob]. *)
Definition srv_no_job : Server :=
  mkServer
    (fun _ _ => FetchResp 200 "{}" (Some (mkInitial None)))
    (fun _ _ => FetchResp 200 "" (Some result_done))
    (fun _ _ => FetchResp 200 "" (Some ticket_sample)).

Lemma srv_sample_pending gid k r h :
  count_gets h < k -> pending_at (srv_sample gid k r) gid h.
Proof.
  intros Hh. exists 200%Z, "", (result_with PENDING None). simpl.
  apply Nat.ltb_lt in Hh. rewrite Hh. auto.
Qed.

Lemma srv_sample_complete gid k r h :
  observed_status r = Some COMPLETE -> count_gets h = k ->
  complete_at (srv_sample gid k r) gid r h.
Proof.
  intros Hr Hh. exists 200%Z, "". simpl.
  rewrite Hh, Nat.ltb_irrefl. auto.
Qed.

(** C5. A run of the poll loop makes at most [maxAttempts] = 30 status
    requests; when the first 30 responses all observe PENDING it fails
    with the polling-timeout error after exactly 30 requests, with no 31st. *)
Theorem poll_at_most_30_requests srv gid l :
  (exists ext, snd (pollForResult srv gid l) = l ++ ext /\ count_gets ext <= 30) /\
  ((forall i h, i < 30 -> count_gets h = count_gets l + i -> pending_at srv gid h) ->
   fst (pollForResult srv gid l) = inl (ErrMsg "Polling timed out.") /\
   exists ext, snd (pollForResult srv gid l) = l ++ ext /\ count_gets ext = 30).
Proof.
  split.
  - destruct (poll_loop_extends srv gid (S maxAttempts) 0 l) as [ext [He Hc]].
    exists ext. split; [exact He| exact Hc].
  - intros Hp. rewrite (pollForResult_all_pending srv gid l Hp). split; [reflexivity|].
    eexists. split; [reflexivity|]. reflexivity.
Qed.

Lemma poll_at_most_30_requests_witness :
  (forall i h, i < 30 -> count_gets h = count_gets [] + i ->
     pending_at (srv_sample "g1" 30 result_done) "g1" h) /\
  (fst (pollForResult (srv_sample "g1" 30 result_done) "g1" [])
     = inl (ErrMsg "Polling timed out.") /\
   exists ext, snd (pollForResult (srv_sample "g1" 30 result_done) "g1" []) = [] ++ ext /\
     count_gets ext = 30).
Proof.
  assert (Hp : forall i h, i < 30 -> count_gets h = count_gets [] + i ->
            pending_at (srv_sample "g1" 30 result_done) "g1" h).
  { intros i h Hi Hh. apply srv_sample_pending. simpl in Hh. lia. }
  split; [exact Hp|].
  apply (proj2 (poll_at_most_30_requests (srv_sample "g1" 30 result_done) "g1" []) Hp).
Defined.

Definition post_generation_event (params : GenerationParams) : event :=
  EvFetch (mkCall POST (baseUrl ++ "/generations")%string (Some (PGeneration params))).

Lemma generateImage_ok srv params l st t resp :
  srv_generate srv l params = FetchResp st t (Some resp) -> resp_ok st = true ->
  generateImage srv params l = (inr resp, l ++ [post_generation_event params]).
Proof.
  intros Hs Ho. unfold generateImage, request. rewrite Hs, Ho. reflexivity.
Qed.

(** C6. When the submission yields a job identifier and the poll answers
    are at most 29 PENDING followed by a COMPLETE response [r], the
    coordinator resolves to the url of the first element of
    [generated_images] of [r]; when [r] carries no image URL (no first
    image, or an empty url) it fails with the missing-image error. *)
Theorem coordinator_resolves_first_image_url srv params l gid st0 t0 k r :
  srv_generate srv l params = FetchResp st0 t0 (Some (mkInitial (Some gid))) ->
  resp_ok st0 = true ->
  truthy gid = true ->
  k <= 29 ->
  (forall i h, i < k -> count_gets h = count_gets l + i -> pending_at srv gid h) ->
  (forall h, count_gets h = count_gets l + k -> complete_at srv gid r h) ->
  (forall u, first_image_url r = Some u -> truthy u = true ->
     fst (generate_and_fetch srv params l) = inr u) /\
  (first_image_url r = None \/ first_image_url r = Some "" ->
     fst (generate_and_fetch srv params l)
     = inl (ErrMsg "Generation completed, but no image URL was found.")).
Proof.
  intros Hs Ho Hg Hk Hp Hq.
  set (l1 := l ++ [post_generation_event params]).
  assert (Hc1 : count_gets l1 = count_gets l + 0).
  { unfold l1. rewrite count_gets_app. reflexivity. }
  assert (Hpoll : fst (pollForResult srv gid l1) = inr r).
  { unfold pollForResult.
    apply (poll_loop_complete srv gid l1 r k 0 maxAttempts l1);
      [reflexivity | unfold maxAttempts; lia | lia | |].
    - intros i h Hi Hh. apply (Hp i h); [lia|]. rewrite Hh, Hc1. lia.
    - intros h Hh. apply Hq. rewrite Hh, Hc1. lia. }
  unfold generate_and_fetch, bind.
  rewrite (generateImage_ok srv params l _ _ _ Hs Ho). cbn [sdGenerationJob].
  rewrite Hg. fold l1.
  destruct (pollForResult srv gid l1) as [res l2]. cbn [fst] in Hpoll. subst res.
  split.
  - intros u Hu Ht. rewrite Hu, Ht. reflexivity.
  - intros [Hu|Hu]; rewrite Hu; reflexivity.
Qed.

Lemma coordinator_resolves_first_image_url_witness :
  fst (generate_and_fetch (srv_sample "g1" 29 result_done) params_sample [])
  = inr "http://x/y.png".
Proof.
  apply (proj1 (coordinator_resolves_first_image_url
                  (srv_sample "g1" 29 result_done) params_sample [] "g1" 200 "" 29
                  result_done eq_refl eq_refl eq_refl ltac:(lia)
                  (fun i h Hi Hh => srv_sample_pending "g1" 29 result_done h
                                      ltac:(simpl in Hh; lia))
                  (fun h Hh => srv_sample_complete "g1" 29 result_done h eq_refl Hh))
           "http://x/y.png" eq_refl eq_refl).
Defined.

(** C7. When the submission response carries no [sdGenerationJob.generationId]
    (absent or empty), the coordinator fails with the missing-identifier
    error right after the submission: the only request made is the POST,
    with no status request. *)
Theorem missing_generation_id_no_poll srv params l st t resp :
  srv_generate srv l params = FetchResp st t (Some resp) ->
  resp_ok st = true ->
  sdGenerationJob resp = None \/ sdGenerationJob resp = Some "" ->
  generate_and_fetch srv params l
  = (inl (ErrMsg "Failed to get generation ID from the initial response."),
     l ++ [post_generation_event params]) /\
  count_gets (snd (generate_and_fetch srv params l)) = count_gets l.
Proof.
  intros Hs Ho Hj.
  assert (E : generate_and_fetch srv params l
              = (inl (ErrMsg msg_no_generation_id), l ++ [post_generation_event params])).
  { unfold generate_and_fetch, bind.
    rewrite (generateImage_ok srv params l _ _ _ Hs Ho).
    destruct Hj as [Hj|Hj]; rewrite Hj; reflexivity. }
  rewrite E. split; [reflexivity|].
  cbn [snd]. rewrite count_gets_app.
  change (count_gets [post_generation_event params]) with 0. lia.
Qed.

Lemma missing_generation_id_no_poll_witness :
  generate_and_fetch srv_no_job params_sample []
  = (inl (ErrMsg "Failed to get generation ID from the initial response."),
     [] ++ [post_generation_event params_sample]) /\
  count_gets (snd (generate_and_fetch srv_no_job params_sample [])) = count_gets [].
Proof.
  apply (missing_generation_id_no_poll srv_no_job params_sample [] 200 "{}"
           (mkInitial None)); [reflexivity | reflexivity | left; reflexivity].
Defined.

(** C8. Through [request], a response whose status is outside 200..299
    fails with an error whose message carries the status and the response
    text; a 2xx response returns its parsed JSON body. *)
Theorem request_http_error_or_json {T} (m : method) (endpoint : string)
    (body : option payload) (answer : log -> fetch_result T) (l : log)
    (st : Z) (text : string) (js : option T) :
  answer l = FetchResp st text js ->
  ((st < 200 \/ 299 < st)%Z ->
     fst (request m endpoint body answer l)
     = inl (ErrMsg ("API request failed with status " ++ show_Z st ++ ": " ++ text)%string)) /\
  ((200 <= st <= 299)%Z -> forall v, js = Some v ->
     fst (request m endpoint body answer l) = inr v).
Proof.
  intros Ha. unfold request, resp_ok. rewrite Ha. split.
  - intros Hs.
    replace ((200 <=? st)%Z && (st <=? 299)%Z) with false; [reflexivity|].
    symmetry. apply andb_false_iff.
    destruct Hs as [Hs|Hs]; [left | right]; apply Z.leb_gt; lia.
  - intros [H1 H2] v ->.
    apply Z.leb_le in H1. apply Z.leb_le in H2. rewrite H1, H2. reflexivity.
Qed.

Lemma request_http_error_or_json_witness :
  fst (request GET "/generations/g1" None
         (fun _ => FetchResp 404 "not found" (Some result_done)) [])
  = inl (ErrMsg "API request failed with status 404: not found") /\
  fst (request GET "/generations/g1" None
         (fun _ => FetchResp 200 "{}" (Some result_done)) []) = inr result_done.
Proof.
  split.
  - apply (proj1 (request_http_error_or_json GET "/generations/g1" None
                    (fun _ => FetchResp 404 "not found" (Some result_done)) []
                    404 "not found" (Some result_done) eq_refl)).
    right; lia.
  - apply (proj2 (request_http_error_or_json GET "/generations/g1" None
                    (fun _ => FetchResp 200 "{}" (Some result_done)) []
                    200 "{}" (Some result_done) eq_refl)); [lia | reflexivity].
Defined.

(** ** Upload ticket *)

Definition init_image_event (ext : string) : event :=
  EvFetch (mkCall POST (baseUrl ++ "/init-image")%string (Some (PInitImage ext))).

(** C9, as stated, fails: [getInitImageUploadUrl] does not reject an empty
    extension; against a service that accepts it, it sends
    [{extension: ""}] and returns the ticket. *)
Lemma getInitImageUploadUrl_empty_extension_accepted :
  getInitImageUploadUrl (srv_sample "g1" 0 result_done) "" []
  = (inr ticket_sample, [init_image_event ""]).
Proof. reflexivity. Qed.

Lemma last_segment_acc_dot s : forall acc, last_segment_acc (s ++ ".") acc = "".
Proof.
  induction s as [|c r IH]; intros acc; simpl; [reflexivity|].
  destruct (Ascii.eqb c "."%char); apply IH.
Qed.

(** C9, amended. [getInitImageUploadUrl] performs no check of its own: for
    every extension it makes one POST to [/init-image] with body
    [{extension}] lower-cased, and its outcome is that of the request. The
    emptiness check is in the upload caller: for a file whose name is
    empty or ends with ['.'], [handleImageUpload] fails with
    "Could not determine file extension." before any request. *)
Theorem upload_ticket_request_lowercased srv (ext : string) (l : log) :
  getInitImageUploadUrl srv ext l
  = request POST "/init-image" (Some (PInitImage (toLowerCase ext)))
      (fun h => srv_init_image srv h (toLowerCase ext)) l /\
  snd (getInitImageUploadUrl srv ext l) = l ++ [init_image_event (toLowerCase ext)] /\
  (forall apiKey fileName,
     truthy apiKey = true ->
     (fileName = "" \/ exists stem, fileName = (stem ++ ".")%string) ->
     request_upload_ticket srv apiKey fileName l = (inl (ErrMsg msg_no_extension), l)).
Proof.
  split; [reflexivity|]. split.
  - unfold getInitImageUploadUrl, request.
    destruct (srv_init_image srv l (toLowerCase ext)) as [|st t [v|]];
      [reflexivity| |]; destruct (negb (resp_ok st)); reflexivity.
  - intros apiKey fileName Hk Hn. unfold request_upload_ticket. rewrite Hk.
    assert (He : split_dot_pop fileName = "").
    { destruct Hn as [->|[stem ->]]; [reflexivity|]. apply last_segment_acc_dot. }
    rewrite He. reflexivity.
Qed.

Lemma upload_ticket_request_lowercased_witness :
  request_upload_ticket (srv_sample "g1" 0 result_done) "key" "photo." []
  = (inl (ErrMsg msg_no_extension), []).
Proof.
  apply (proj2 (proj2 (upload_ticket_request_lowercased
                         (srv_sample "g1" 0 result_done) "PNG" []))).
  - reflexivity.
  - right. exists "photo". reflexivity.
Defined.

Lemma poll_loop_first_get srv gid fuel attempts l :
  attempts < maxAttempts ->
  exists rest, snd (poll_loop srv (S fuel) attempts gid l) = l ++ get_event gid :: rest.
Proof.
  intros Ha. cbn [poll_loop].
  assert (Ea : (attempts <? maxAttempts)%nat = true) by (apply Nat.ltb_lt; exact Ha).
  rewrite Ea. unfold bind.
  pose proof (getGenerationById_log srv gid l) as Hl.
  destruct (getGenerationById srv gid l) as [[e|r] l1]; cbn [snd] in Hl; subst l1.
  - exists []. reflexivity.
  - destruct (poll_loop_extends srv gid fuel (S attempts)
                ((l ++ [get_event gid]) ++ [EvSleep pollDelayMs])) as [ext [He _]].
    destruct (observed_status r) as [[| |]|]; unfold ret, throw, sleep;
      cbv beta iota zeta.
    + exists (EvSleep pollDelayMs :: ext). rewrite He, <- !app_assoc. reflexivity.
    + exists []. reflexivity.
    + exists []. reflexivity.
    + exists (EvSleep pollDelayMs :: ext). rewrite He, <- !app_assoc. reflexivity.
Qed.

Lemma concat_repeat_S {A} (x : list A) n :
  concat (repeat x (S n)) = concat (repeat x n) ++ x.
Proof.
  induction n as [|n IH]; simpl; [rewrite app_nil_r; reflexivity|].
  simpl in IH. rewrite IH, app_assoc, IH. reflexivity.
Qed.

Lemma blocks_S gid n :
  concat (repeat (poll_block gid) (S n)) = concat (repeat (poll_block gid) n) ++ poll_block gid.
Proof. apply concat_repeat_S. Qed.

(** Every run of the loop from attempt [attempts], with the log so far
    [l0] followed by [attempts] blocks [GET; delay]: the answers to the
    status requests [attempts .. k-1] all let the loop go on, and either
    [k] reaches [maxAttempts] and the timeout error comes after [k] blocks,
    or the [k]-th answer ends the loop right after its [GET]. *)
Lemma poll_loop_trace srv gid l0 : forall m attempts l,
  attempts + m = maxAttempts ->
  l = l0 ++ concat (repeat (poll_block gid) attempts) ->
  exists k, attempts <= k /\
    (forall i, attempts <= i < k ->
       stop_outcome (fst (getGenerationById srv gid
                            (l0 ++ concat (repeat (poll_block gid) i)))) = None) /\
    ((k = maxAttempts /\
      poll_loop srv (S m) attempts gid l
      = (inl (ErrMsg msg_timeout), l0 ++ concat (repeat (poll_block gid) k))) \/
     (k < maxAttempts /\
      stop_outcome (fst (getGenerationById srv gid
                           (l0 ++ concat (repeat (poll_block gid) k))))
      = Some (fst (poll_loop srv (S m) attempts gid l)) /\
      snd (poll_loop srv (S m) attempts gid l)
      = l0 ++ concat (repeat (poll_block gid) k) ++ [get_event gid])).
Proof.
  induction m as [|m IH]; intros attempts l Hm Hl.
  - exists attempts. split; [lia|]. split; [intros i Hi; lia|].
    left. split; [lia|]. subst l. cbn [poll_loop].
    replace (attempts <? maxAttempts)%nat with false by (symmetry; apply Nat.ltb_ge; lia).
    reflexivity.
  - cbn [poll_loop].
    assert (Ea : (attempts <? maxAttempts)%nat = true) by (apply Nat.ltb_lt; lia).
    rewrite Ea. unfold bind. subst l.
    pose proof (getGenerationById_log srv gid
                  (l0 ++ concat (repeat (poll_block gid) attempts))) as Hg.
    destruct (getGenerationById srv gid (l0 ++ concat (repeat (poll_block gid) attempts)))
      as [x l1] eqn:Eg.
    cbn [snd] in Hg. subst l1.
    assert (Stop : forall o, stop_outcome x = Some o ->
              exists k, attempts <= k /\
                (forall i, attempts <= i < k ->
                   stop_outcome (fst (getGenerationById srv gid
                                        (l0 ++ concat (repeat (poll_block gid) i)))) = None) /\
                ((k = maxAttempts /\
                  (o, (l0 ++ concat (repeat (poll_block gid) attempts)) ++ [get_event gid])
                  = (inl (ErrMsg msg_timeout), l0 ++ concat (repeat (poll_block gid) k))) \/
                 (k < maxAttempts /\
                  stop_outcome (fst (getGenerationById srv gid
                                       (l0 ++ concat (repeat (poll_block gid) k))))
                  = Some (fst (o, (l0 ++ concat (repeat (poll_block gid) attempts))
                                   ++ [get_event gid])) /\
                  snd (o, (l0 ++ concat (repeat (poll_block gid) attempts)) ++ [get_event gid])
                  = l0 ++ concat (repeat (poll_block gid) k) ++ [get_event gid]))).
    { intros o Ho. exists attempts. split; [lia|]. split; [intros i Hi; lia|].
      right. split; [lia|]. rewrite Eg. cbn [fst snd].
      split; [exact Ho|]. rewrite app_assoc. reflexivity. }
    destruct x as [e|r].
    + apply (Stop (inl e)). reflexivity.
    + destruct (observed_status r) as [[| |]|] eqn:Eo.
      * (* PENDING *)
        unfold sleep.
        destruct (IH (S attempts)
                    ((l0 ++ concat (repeat (poll_block gid) attempts)) ++ [get_event gid]
                     ++ [EvSleep pollDelayMs])) as [k [Hk [Hc Hend]]].
        { lia. }
        { rewrite blocks_S, <- !app_assoc. reflexivity. }
        exists k. split; [lia|]. split.
        { intros i Hi. destruct (Nat.eq_dec i attempts) as [->|Hne].
          - rewrite Eg. cbn [fst stop_outcome]. rewrite Eo. reflexivity.
          - apply Hc. lia. }
        rewrite <- app_assoc. exact Hend.
      * apply (Stop (inr r)). cbn [stop_outcome]. rewrite Eo. reflexivity.
      * apply (Stop (inl (ErrMsg msg_failed))). cbn [stop_outcome]. rewrite Eo. reflexivity.
      * (* no [generations_by_pk]: the loop goes on as for PENDING *)
        unfold sleep.
        destruct (IH (S attempts)
                    ((l0 ++ concat (repeat (poll_block gid) attempts)) ++ [get_event gid]
                     ++ [EvSleep pollDelayMs])) as [k [Hk [Hc Hend]]].
        { lia. }
        { rewrite blocks_S, <- !app_assoc. reflexivity. }
        exists k. split; [lia|]. split.
        { intros i Hi. destruct (Nat.eq_dec i attempts) as [->|Hne].
          - rewrite Eg. cbn [fst stop_outcome]. rewrite Eo. reflexivity.
          - apply Hc. lia. }
        rewrite <- app_assoc. exact Hend.
Qed.

(** C10. In every run of the poll loop, for every service: the first
    event is the first status request, with no delay before it; the run is
    some number [k] of blocks [GET; 10-second delay], where each of those
    [k] answers was one the loop does not stop on (PENDING, or no status),
    followed either by the timeout error when [k] = 30 (so the 30th PENDING
    answer is followed by a delay too), or, when [k < 30], by one last
    [GET] whose answer (COMPLETE, FAILED or a request error) ends the run
    at once, with no delay after it. *)
Theorem poll_first_request_immediate_trailing_delay srv gid l :
  (exists rest, snd (pollForResult srv gid l) = l ++ get_event gid :: rest) /\
  exists k,
    (forall i, i < k ->
       stop_outcome (fst (getGenerationById srv gid
                            (l ++ concat (repeat [get_event gid; EvSleep 10000] i)))) = None) /\
    ((k = 30 /\
      pollForResult srv gid l
      = (inl (ErrMsg "Polling timed out."),
         l ++ concat (repeat [get_event gid; EvSleep 10000] 30))) \/
     (k < 30 /\
      stop_outcome (fst (getGenerationById srv gid
                           (l ++ concat (repeat [get_event gid; EvSleep 10000] k))))
      = Some (fst (pollForResult srv gid l)) /\
      snd (pollForResult srv gid l)
      = l ++ concat (repeat [get_event gid; EvSleep 10000] k) ++ [get_event gid])).
Proof.
  split.
  - apply poll_loop_first_get. unfold maxAttempts. lia.
  - destruct (poll_loop_trace srv gid l maxAttempts 0 l ltac:(reflexivity)
                ltac:(simpl; rewrite app_nil_r; reflexivity)) as [k [_ [Hc Hend]]].
    exists k. split.
    + intros i Hi. apply (Hc i). lia.
    + unfold pollForResult. destruct Hend as [[Hk He]|[Hk He]].
      * left. subst k. split; [reflexivity|exact He].
      * right. unfold maxAttempts in Hk. split; [exact Hk|exact He].
Qed.

(** ** Model configuration table *)

Fixpoint keys_distinct {A} (tbl : list (string * A)) : bool :=
  match tbl with
  | [] => true
  | (k, _) :: r => negb (existsb (String.eqb k) (map fst r)) && keys_distinct r
  end.

Lemma lookup_str_In {A} (tbl : list (string * A)) k v :
  lookup_str tbl k = Some v -> In (k, v) tbl.
Proof.
  induction tbl as [|[k' v'] r IH]; simpl; [discriminate|].
  destruct (String.eqb k k') eqn:E.
  - apply String.eqb_eq in E. subst. intros H; injection H as <-. left; reflexivity.
  - intros H. right. apply IH, H.
Qed.

Lemma In_lookup_str {A} (tbl : list (string * A)) k v :
  keys_distinct tbl = true -> In (k, v) tbl -> lookup_str tbl k = Some v.
Proof.
  induction tbl as [|[k' v'] r IH]; simpl; [contradiction|].
  intros Hd Hin. apply andb_true_iff in Hd as [Hn Hd].
  destruct Hin as [Heq|Hin].
  - injection Heq as -> ->. rewrite String.eqb_refl. reflexivity.
  - destruct (String.eqb k k') eqn:E.
    + apply String.eqb_eq in E. subst k'.
      exfalso. apply negb_true_iff in Hn.
      assert (Hx : existsb (String.eqb k) (map fst r) = true).
      { apply existsb_exists. exists k. split; [|apply String.eqb_refl].
        apply in_map_iff. exists (k, v). auto. }
      congruence.
    + apply IH; assumption.
Qed.

Lemma MODEL_CONFIG_keys_distinct : keys_distinct MODEL_CONFIG = true.
Proof. vm_compute. reflexivity. Qed.

Lemma getModelConfig_In n e : getModelConfig n = Some e -> In (n, e) MODEL_CONFIG.
Proof. apply lookup_str_In. Qed.

Lemma forallb_MODEL_CONFIG (f : string * ModelEntry -> bool) :
  forallb f MODEL_CONFIG = true -> forall n e, getModelConfig n = Some e -> f (n, e) = true.
Proof.
  intros Hf n e He. apply getModelConfig_In in He.
  rewrite forallb_forall in Hf. apply Hf, He.
Qed.

(** X1. No entry of [MODEL_CONFIG] declares both a [guidance] table and a
    [contextGuidance] list. *)
Theorem model_config_guidance_families_exclusive n e :
  getModelConfig n = Some e ->
  ms_guidance (me_supports e) = None \/ ms_contextGuidance (me_supports e) = None.
Proof.
  intros He.
  pose proof (forallb_MODEL_CONFIG
                (fun kv => negb (declared (ms_guidance (me_supports (snd kv))))
                           || negb (declared (ms_contextGuidance (me_supports (snd kv)))))
                ltac:(vm_compute; reflexivity) n e He) as H.
  simpl in H. apply orb_true_iff in H.
  destruct H as [H|H]; [left|right];
    [destruct (ms_guidance (me_supports e))|destruct (ms_contextGuidance (me_supports e))];
    try reflexivity; discriminate.
Qed.

Lemma model_config_guidance_families_exclusive_witness :
  match getModelConfig "FLUX.1 Kontext" with
  | Some e => ms_guidance (me_supports e) = None \/ ms_contextGuidance (me_supports e) = None
  | None => False
  end.
Proof.
  exact (model_config_guidance_families_exclusive "FLUX.1 Kontext" _ eq_refl).
Defined.

Lemma lookup_guidance_In tbl k gc :
  lookup_guidance tbl k = Some gc -> In (k, gc) tbl.
Proof.
  induction tbl as [|[k' v'] r IH]; simpl; [discriminate|].
  destruct (String.eqb k k') eqn:E.
  - apply String.eqb_eq in E. subst. intros H; injection H as <-. left; reflexivity.
  - intros H. right. apply IH, H.
Qed.

Definition no_weight_entries (e : ModelEntry) : bool :=
  match ms_guidance (me_supports e) with
  | Some l => forallb (fun kv => negb (ge_usesWeight (snd kv))) l
  | None => true
  end.

Lemma model_config_lookup_no_weight n e tbl k gc :
  getModelConfig n = Some e ->
  guidance (supports (to_config e)) = Some tbl ->
  lookup_guidance tbl k = Some gc -> usesWeight gc = false.
Proof.
  intros He Ht Hk.
  pose proof (forallb_MODEL_CONFIG (fun kv => no_weight_entries (snd kv))
                ltac:(vm_compute; reflexivity) n e He) as Hn.
  simpl in Hn. unfold no_weight_entries in Hn.
  apply lookup_guidance_In in Hk.
  unfold to_config in Ht; simpl in Ht.
  destruct (ms_guidance (me_supports e)) as [l|]; [|discriminate].
  injection Ht as <-.
  apply in_map_iff in Hk as [kv [Hkv Hin]].
  injection Hkv as _ <-. simpl.
  rewrite forallb_forall in Hn. specialize (Hn kv Hin).
  destruct (ge_usesWeight (snd kv)); [discriminate|reflexivity].
Qed.

(** X2. For every model of [MODEL_CONFIG], each [controlnets] entry the
    builder emits carries the image's [strengthType] and no [weight]: no
    table entry sets [usesWeight]. *)
Theorem model_config_controlnets_strengthType_only n e st p cns :
  getModelConfig n = Some e ->
  build_params (to_config e) st = inr p ->
  controlnets p = Some cns ->
  Forall2 (fun img cn => initImageId cn = id_of img /\ weight cn = None /\
                         strengthType cn = Some (gi_strengthType img))
    (filter is_ready (guidanceImages st)) cns.
Proof.
  intros He Hb Hc.
  destruct (build_params_fields _ _ _ Hb) as [Hg _].
  rewrite Hc in Hg.
  destruct (guidance_fields_controlnets _ _ _ _ Hg) as [tbl [Ht Hm]].
  pose proof (map_err_Forall2 _ _ _ Hm) as HF.
  eapply Forall2_impl; [|exact HF].
  intros img cn Hx.
  destruct (controlnet_of_shape _ _ _ Hx) as [[gc [Hl [Hi [_ [_ [_ Hf]]]]]] _].
  destruct (Hf (model_config_lookup_no_weight n e tbl _ gc He Ht Hl)) as [Hw Hs].
  auto.
Qed.

Definition img_lucid : GuidanceImage :=
  mkGuidanceImage "t1" (Some "img-1") ready "Style Reference" "High" (3#2) None.

Definition form_lucid : FormState :=
  mkForm "a lighthouse" 1024 1024 "None" 1 false false
    [img_lucid; img_pending].

Lemma model_config_controlnets_strengthType_only_witness :
  match getModelConfig "Lucid Origin" with
  | Some e =>
      match build_params (to_config e) form_lucid with
      | inr p =>
          match controlnets p with
          | Some cns =>
              Forall2 (fun img cn => initImageId cn = id_of img /\ weight cn = None /\
                         strengthType cn = Some (gi_strengthType img))
                (filter is_ready (guidanceImages form_lucid)) cns
          | None => False
          end
      | inl _ => False
      end
  | None => False
  end.
Proof.
  exact (model_config_controlnets_strengthType_only "Lucid Origin" _ form_lucid _ _
           eq_refl eq_refl eq_refl).
Defined.

Lemma NodeType_eqb_eq a b : NodeType_eqb a b = true <-> a = b.
Proof. destruct a, b; simpl; split; congruence. Qed.

Definition ids_truthy (e : ModelEntry) : bool :=
  match me_id e with Some i => truthy i | None => true end.

Lemma lookup_flat_map_ids (tbl : list (string * ModelEntry)) n :
  keys_distinct tbl = true ->
  forallb (fun kv => ids_truthy (snd kv)) tbl = true ->
  lookup_str (flat_map (fun kv => match me_id (snd kv) with
                                  | Some i => [(fst kv, i)]
                                  | None => []
                                  end) tbl) n =
  match lookup_str tbl n with
  | Some c => match me_id c with
              | Some i => if truthy i then Some i else None
              | None => None
              end
  | None => None
  end.
Proof.
  induction tbl as [|[k e] r IH]; simpl; [reflexivity|].
  intros Hd Ht. apply andb_true_iff in Hd as [Hn Hd].
  apply andb_true_iff in Ht as [Hi Ht].
  unfold ids_truthy in Hi.
  destruct (me_id e) as [i|] eqn:Ei; simpl.
  - destruct (String.eqb n k).
    + rewrite Ei. change (Some i = if truthy i then Some i else None). rewrite Hi; reflexivity.
    + apply IH; assumption.
  - destruct (String.eqb n k) eqn:Enk; [|apply IH; assumption].
    apply String.eqb_eq in Enk. subst n.
    assert (Hnone : forall A (t : list (string * A)),
               existsb (String.eqb k) (map fst t) = false -> lookup_str t k = None).
    { intros A t. induction t as [|[k' v'] t' IHt]; simpl; [reflexivity|].
      intros H. apply orb_false_iff in H as [H1 H2]. rewrite H1. apply IHt, H2. }
    apply negb_true_iff in Hn.
    rewrite Ei. apply Hnone.
    clear - Hn. induction r as [|[k' e'] r' IHr]; simpl in *; [reflexivity|].
    apply orb_false_iff in Hn as [H1 H2].
    destruct (me_id e'); simpl; [rewrite H1|]; simpl; apply IHr, H2.
Qed.

(** X4. For every model name of [MODEL_CONFIG], [MODEL_ID_MAP[name]] and
    [getModelId(name)] both give the model's id: the map has an entry for
    the name exactly when the id is not null, and every non-null id is a
    non-empty string, so [config?.id || null] keeps it. *)
Theorem MODEL_ID_MAP_agrees_getModelId n :
  In n (map fst MODEL_CONFIG) ->
  exists e, getModelConfig n = Some e /\
    lookup_str MODEL_ID_MAP n = me_id e /\ getModelId n = me_id e.
Proof.
  intros Hn. apply in_map_iff in Hn as [[k e] [Hk Hin]]. simpl in Hk. subst k.
  assert (He : getModelConfig n = Some e).
  { apply In_lookup_str; [apply MODEL_CONFIG_keys_distinct|exact Hin]. }
  assert (Hid : forallb (fun kv => ids_truthy (snd kv)) MODEL_CONFIG = true)
    by (vm_compute; reflexivity).
  pose proof (forallb_MODEL_CONFIG _ Hid n e He) as Ht. simpl in Ht.
  assert (Hg : getModelId n = me_id e).
  { unfold getModelId. change (lookup_str MODEL_CONFIG n) with (getModelConfig n).
    rewrite He. unfold ids_truthy in Ht.
    destruct (me_id e) as [i|]; [rewrite Ht|]; reflexivity. }
  exists e. split; [exact He|]. split; [|exact Hg].
  rewrite <- Hg. unfold MODEL_ID_MAP, getModelId.
  apply lookup_flat_map_ids; [apply MODEL_CONFIG_keys_distinct|exact Hid].
Qed.

Lemma MODEL_ID_MAP_agrees_getModelId_witness :
  (exists e, getModelConfig "MOTION2" = Some e /\
     lookup_str MODEL_ID_MAP "MOTION2" = me_id e /\ getModelId "MOTION2" = me_id e) /\
  (exists e, getModelConfig "Lucid Origin" = Some e /\
     lookup_str MODEL_ID_MAP "Lucid Origin" = me_id e /\ getModelId "Lucid Origin" = me_id e).
Proof.
  split; apply MODEL_ID_MAP_agrees_getModelId; vm_compute; tauto.
Defined.

(** ** Builder: images that are not ready, and builder errors *)

Lemma filter_idem {A} (f : A -> bool) l : filter f (filter f l) = filter f l.
Proof.
  induction l as [|x r IH]; simpl; [reflexivity|].
  destruct (f x) eqn:E; simpl; [rewrite E, IH|]; auto.
Qed.

Lemma nonempty_filter {A} (f : A -> bool) l :
  nonempty (filter f l) = true -> nonempty l = true.
Proof. destruct l; [discriminate|reflexivity]. Qed.

Lemma guidance_fields_ready_only s imgs :
  guidance_fields s imgs = guidance_fields s (filter is_ready imgs).
Proof.
  unfold guidance_fields. rewrite filter_idem.
  destruct (nonempty (filter is_ready imgs)) eqn:HR.
  - rewrite (nonempty_filter _ _ HR). reflexivity.
  - destruct (declared (contextGuidance s)), (nonempty imgs), (guidance s);
      cbn [andb]; reflexivity.
Qed.

Definition with_images (st : FormState) (imgs : list GuidanceImage) : FormState :=
  mkForm (f_prompt st) (f_width st) (f_height st) (style st) (f_contrast st)
    (f_alchemy st) (f_photoReal st) imgs.

(** X5. The builder's outcome (parameters or error) depends only on the
    ready guidance images: dropping every image that is not ready (still
    uploading, failed, or without an id) gives the same outcome. *)
Theorem build_params_ignores_unready_images cfg st :
  build_params cfg st = build_params cfg (with_images st (filter is_ready (guidanceImages st))).
Proof.
  unfold build_params. simpl. rewrite <- guidance_fields_ready_only. reflexivity.
Qed.

Lemma map_err_inl {A B} (f : A -> err + B) l e :
  map_err f l = inl e ->
  exists pre x post, l = pre ++ x :: post /\
    Forall (fun y => exists z, f y = inr z) pre /\ f x = inl e.
Proof.
  induction l as [|x r IH]; simpl; [discriminate|].
  destruct (f x) as [e'|y] eqn:Ef.
  - intros H; injection H as ->. exists [], x, r. auto.
  - destruct (map_err f r) as [e'|ys] eqn:Er; [|discriminate].
    intros H; injection H as ->.
    destruct (IH eq_refl) as [pre [x' [post [Hr [Hpre Hx]]]]].
    exists (x :: pre), x', post. subst r. simpl. repeat split; auto.
    constructor; eauto.
Qed.

(** X6. The builder fails only in the guidance-table branch, at the first
    ready image whose guidance type has no table entry, with the
    invalid-guidance-type error naming that type; [handleSubmit] then
    reports this error without sending any request. *)
Theorem builder_error_first_unknown_guidance_no_request srv apiKey cfg st l e :
  truthy apiKey = true ->
  build_params cfg st = inl e ->
  handleSubmit srv apiKey (Some cfg) st l = Some (inl e, l) /\
  exists tbl pre img post,
    guidance (supports cfg) = Some tbl /\
    filter is_ready (guidanceImages st) = pre ++ img :: post /\
    Forall (fun y => lookup_guidance tbl (guidanceType y) <> None) pre /\
    lookup_guidance tbl (guidanceType img) = None /\
    e = ErrMsg (msg_invalid_guidance (guidanceType img)).
Proof.
  intros Hk Hb. split.
  - unfold handleSubmit. rewrite Hk, Hb. reflexivity.
  - unfold build_params in Hb.
    destruct (guidance_fields (supports cfg) (guidanceImages st)) as [e'|[cns ctx]] eqn:Hg;
      [|discriminate].
    injection Hb as ->.
    unfold guidance_fields in Hg.
    destruct (declared (contextGuidance (supports cfg)) && nonempty (guidanceImages st)).
    { destruct (nonempty (filter is_ready (guidanceImages st))); discriminate. }
    destruct (guidance (supports cfg)) as [tbl|]; [|discriminate].
    destruct (nonempty (guidanceImages st)); [|discriminate].
    destruct (nonempty (filter is_ready (guidanceImages st))); [|discriminate].
    destruct (map_err (controlnet_of tbl) (filter is_ready (guidanceImages st))) eqn:Hm;
      [|discriminate].
    injection Hg as <-.
    destruct (map_err_inl _ _ _ Hm) as [pre [img [post [Hl [Hpre Hx]]]]].
    exists tbl, pre, img, post. repeat split; auto.
    + eapply Forall_impl; [|exact Hpre]. intros y [z Hz].
      unfold controlnet_of in Hz.
      destruct (lookup_guidance tbl (guidanceType y)); [discriminate|discriminate].
    + unfold controlnet_of in Hx.
      destruct (lookup_guidance tbl (guidanceType img)); [|reflexivity].
      destruct (usesWeight g); discriminate.
    + unfold controlnet_of in Hx.
      destruct (lookup_guidance tbl (guidanceType img)).
      * destruct (usesWeight g); discriminate.
      * injection Hx as <-. reflexivity.
Qed.

Definition img_pose : GuidanceImage :=
  mkGuidanceImage "t4" (Some "i4") ready "Pose" "Mid" 1 None.

Definition form_unknown_type : FormState :=
  mkForm "x" 1024 1024 "None" 1 false false [img_pending; img_style; img_pose; img_depth].

Lemma builder_error_first_unknown_guidance_no_request_witness :
  match build_params cfg_guidance form_unknown_type with
  | inl e =>
      handleSubmit srv_no_job "key" (Some cfg_guidance) form_unknown_type [] = Some (inl e, []) /\
      exists tbl pre img post,
        guidance (supports cfg_guidance) = Some tbl /\
        filter is_ready (guidanceImages form_unknown_type) = pre ++ img :: post /\
        Forall (fun y => lookup_guidance tbl (guidanceType y) <> None) pre /\
        lookup_guidance tbl (guidanceType img) = None /\
        e = ErrMsg (msg_invalid_guidance (guidanceType img))
  | inr _ => False
  end.
Proof.
  exact (builder_error_first_unknown_guidance_no_request srv_no_job "key" cfg_guidance
           form_unknown_type [] _ eq_refl eq_refl).
Defined.

(** ** Polling: the answers that end the loop *)


Lemma poll_loop_stops srv gid l0 o : forall n attempts m l,
  attempts + m = maxAttempts ->
  attempts + n < maxAttempts ->
  count_gets l = count_gets l0 + attempts ->
  (forall i h, i < attempts + n -> count_gets h = count_gets l0 + i -> pending_at srv gid h) ->
  (forall h, count_gets h = count_gets l0 + (attempts + n) ->
     stop_outcome (fst (getGenerationById srv gid h)) = Some o) ->
  poll_loop srv (S m) attempts gid l
  = (o, l ++ concat (repeat (poll_block gid) n) ++ [get_event gid]).
Proof.
  induction n as [|n IH]; intros attempts m l Hm Hn Hc Hp Hq;
    cbn [poll_loop];
    (assert (Ea : (attempts <? maxAttempts)%nat = true) by (apply Nat.ltb_lt; lia));
    rewrite Ea; unfold bind.
  - specialize (Hq l ltac:(lia)).
    pose proof (getGenerationById_log srv gid l) as Hl.
    destruct (getGenerationById srv gid l) as [[e|r] l1]; cbn [snd fst] in Hl, Hq; subst l1.
    + injection Hq as <-. reflexivity.
    + unfold stop_outcome in Hq.
      destruct (observed_status r) as [[| |]|]; try discriminate;
        injection Hq as <-; reflexivity.
  - destruct (Hp attempts l ltac:(lia) Hc) as [st [t [r' [Ho [Hs Hr]]]]].
    rewrite (getGenerationById_ok _ _ _ _ _ _ Hs Ho), Hr.
    unfold sleep.
    destruct m as [|m]; [lia|].
    rewrite (IH (S attempts) m); try lia.
    + rewrite <- !app_assoc. reflexivity.
    + rewrite !count_gets_app, Hc, count_gets_get.
      change (count_gets [EvSleep pollDelayMs]) with 0. lia.
    + intros i h Hi. apply Hp. lia.
    + intros h Hh. apply Hq. lia.
Qed.

Lemma pollForResult_stops srv gid l k o :
  k < maxAttempts ->
  (forall i h, i < k -> count_gets h = count_gets l + i -> pending_at srv gid h) ->
  (forall h, count_gets h = count_gets l + k ->
     stop_outcome (fst (getGenerationById srv gid h)) = Some o) ->
  pollForResult srv gid l
  = (o, l ++ concat (repeat (poll_block gid) k) ++ [get_event gid]).
Proof.
  intros Hk Hp Hq. unfold pollForResult.
  apply (poll_loop_stops srv gid l o k 0 maxAttempts l); auto; lia.
Qed.

(** X7. When the first [k < 30] status answers observe PENDING and the next
    one observes FAILED, the poll fails with "Generation failed." after
    exactly [k + 1] status requests, with no delay after the last one. *)
Theorem pollForResult_failed srv gid l k :
  k < 30 ->
  (forall i h, i < k -> count_gets h = count_gets l + i -> pending_at srv gid h) ->
  (forall h, count_gets h = count_gets l + k ->
     exists st t r, resp_ok st = true /\ srv_get srv h gid = FetchResp st t (Some r) /\
       observed_status r = Some FAILED) ->
  pollForResult srv gid l
  = (inl (ErrMsg msg_failed), l ++ concat (repeat (poll_block gid) k) ++ [get_event gid]).
Proof.
  intros Hk Hp Hf. apply pollForResult_stops; [exact Hk|exact Hp|].
  intros h Hh. destruct (Hf h Hh) as [st [t [r [Ho [Hs Hr]]]]].
  rewrite (getGenerationById_ok _ _ _ _ _ _ Hs Ho). simpl. rewrite Hr. reflexivity.
Qed.

(** X8. When the first [k < 30] status answers observe PENDING and the
    next status request fails (network error, non-2xx status or unreadable
    JSON), the poll fails at once with that request's error, after exactly
    [k + 1] status requests. *)
Theorem pollForResult_request_error srv gid l k e :
  k < 30 ->
  (forall i h, i < k -> count_gets h = count_gets l + i -> pending_at srv gid h) ->
  (forall h, count_gets h = count_gets l + k -> fst (getGenerationById srv gid h) = inl e) ->
  pollForResult srv gid l
  = (inl e, l ++ concat (repeat (poll_block gid) k) ++ [get_event gid]).
Proof.
  intros Hk Hp He. apply pollForResult_stops; [exact Hk|exact Hp|].
  intros h Hh. rewrite (He h Hh). reflexivity.
Qed.

(** X9. When the submission request fails, the coordinator fails with that
    error and sends nothing after the submission: no status request. *)
Theorem generate_and_fetch_submit_error srv params l e :
  fst (generateImage srv params l) = inl e ->
  generate_and_fetch srv params l = (inl e, l ++ [post_generation_event params]).
Proof.
  intros He. unfold generate_and_fetch, bind.
  assert (Hl : snd (generateImage srv params l) = l ++ [post_generation_event params]).
  { unfold generateImage, request.
    destruct (srv_generate srv l params) as [|st t [v|]]; [reflexivity| |];
      destruct (negb (resp_ok st)); reflexivity. }
  destruct (generateImage srv params l) as [x l1]. cbn [fst snd] in He, Hl.
  subst x l1. reflexivity.
Qed.

Lemma pollForResult_failed_witness :
  pollForResult (srv_sample "g1" 2 (result_with FAILED None)) "g1" []
  = (inl (ErrMsg msg_failed), [] ++ concat (repeat (poll_block "g1") 2) ++ [get_event "g1"]).
Proof.
  refine (pollForResult_failed (srv_sample "g1" 2 (result_with FAILED None)) "g1" [] 2
            _ _ _).
  - lia.
  - intros i h Hi Hh. apply srv_sample_pending. cbn in Hh. lia.
  - intros h Hh. exists 200%Z, "", (result_with FAILED None).
    cbn [srv_get srv_sample]. rewrite Hh. auto.
Defined.

(** Polls answer PENDING until [k] status requests have been made, then
    the status request fails with a network error. *)
Definition srv_get_down (gid : string) (k : nat) : Server :=
  mkServer
    (fun _ _ => FetchResp 200 "" (Some (mkInitial (Some gid))))
    (fun h _ => if (count_gets h <? k)%nat
                then FetchResp 200 "" (Some (result_with PENDING None))
                else FetchNetErr)
    (fun _ _ => FetchResp 200 "" (Some ticket_sample)).

Lemma pollForResult_request_error_witness :
  pollForResult (srv_get_down "g1" 3) "g1" []
  = (inl ErrNetwork, [] ++ concat (repeat (poll_block "g1") 3) ++ [get_event "g1"]).
Proof.
  refine (pollForResult_request_error (srv_get_down "g1" 3) "g1" [] 3 ErrNetwork _ _ _).
  - lia.
  - intros i h Hi Hh. exists 200%Z, "", (result_with PENDING None).
    cbn [srv_get srv_get_down]. cbn in Hh. rewrite Hh.
    apply Nat.ltb_lt in Hi. rewrite Hi. auto.
  - intros h Hh. unfold getGenerationById, request.
    cbn [srv_get srv_get_down]. rewrite Hh. reflexivity.
Defined.

(** The submission request is answered with HTTP 500. *)
Definition srv_submit_down : Server :=
  mkServer
    (fun _ _ => FetchResp 500 "boom" None)
    (fun _ _ => FetchResp 200 "" (Some result_done))
    (fun _ _ => FetchResp 200 "" (Some ticket_sample)).

Lemma generate_and_fetch_submit_error_witness :
  fst (generateImage srv_submit_down params_sample [])
    = inl (ErrMsg (request_failed_msg 500 "boom")) /\
  generate_and_fetch srv_submit_down params_sample []
    = (inl (ErrMsg (request_failed_msg 500 "boom")), [] ++ [post_generation_event params_sample]).
Proof.
  split; [reflexivity|].
  apply generate_and_fetch_submit_error. reflexivity.
Defined.

(** ** File extension: [split('.').pop()] *)

Fixpoint no_dot (s : string) : bool :=
  match s with
  | EmptyString => true
  | String c r => negb (Ascii.eqb c "."%char) && no_dot r
  end.

Lemma last_segment_acc_app s1 s2 acc :
  last_segment_acc (s1 ++ s2)%string acc = last_segment_acc s2 (last_segment_acc s1 acc).
Proof.
  revert acc. induction s1 as [|c r IH]; intros acc; simpl; [reflexivity|].
  destruct (Ascii.eqb c "."%char); apply IH.
Qed.

Lemma string_app_assoc (a b c : string) : (a ++ (b ++ c))%string = ((a ++ b) ++ c)%string.
Proof. induction a as [|x r IH]; simpl; [reflexivity|]. rewrite IH. reflexivity. Qed.

Lemma string_app_nil_r (a : string) : (a ++ "")%string = a.
Proof. induction a as [|x r IH]; simpl; [reflexivity|]. rewrite IH. reflexivity. Qed.

Lemma last_segment_acc_no_dot s : forall acc,
  no_dot s = true -> last_segment_acc s acc = (acc ++ s)%string.
Proof.
  induction s as [|c r IH]; intros acc Hs; simpl in *.
  - rewrite string_app_nil_r. reflexivity.
  - apply andb_true_iff in Hs as [Hc Hr]. apply negb_true_iff in Hc. rewrite Hc.
    rewrite (IH _ Hr), <- string_app_assoc. reflexivity.
Qed.

(** X10. [split('.').pop()] returns the text after the last dot: the whole
    name when it has no dot, and [ext] for [stem ++ "." ++ ext] when [ext]
    has no dot. *)
Theorem split_dot_pop_after_last_dot stem ext :
  no_dot ext = true ->
  split_dot_pop ext = ext /\ split_dot_pop (stem ++ String "."%char ext)%string = ext.
Proof.
  intros He. unfold split_dot_pop. split.
  - apply (last_segment_acc_no_dot ext ""), He.
  - rewrite last_segment_acc_app. simpl.
    destruct (Ascii.eqb "."%char "."%char) eqn:E; [|discriminate].
    apply (last_segment_acc_no_dot ext ""), He.
Qed.

Lemma split_dot_pop_after_last_dot_witness :
  split_dot_pop "png" = "png" /\ split_dot_pop "my.photo.png" = "png".
Proof.
  exact (split_dot_pop_after_last_dot "my.photo" "png" eq_refl).
Defined.

(** ** Guidance-image list operations *)

Lemma GUIDANCE_STRENGTH_TYPES_second g l :
  lookup_str GUIDANCE_STRENGTH_TYPES g = Some l -> nth_error l 1 = Some "Mid".
Proof.
  intros H. apply lookup_str_In in H.
  simpl in H. repeat destruct H as [H|H]; try (injection H as _ <-; reflexivity).
  contradiction.
Qed.

(** X11. The image [handleImageUpload] appends is not ready (status
    uploading, no id), has weight 1 and the strength type "Mid", whatever
    the selected configuration: every listed guidance type has "Mid" as
    its second strength. *)
Theorem new_guidance_image_defaults selectedConfig t :
  let img := new_guidance_image selectedConfig t in
  tempId img = t /\ gi_status img = uploading /\ gi_id img = None /\
  is_ready img = false /\ gi_weight img = 1%Q /\ gi_strengthType img = "Mid".
Proof.
  cbn zeta. unfold new_guidance_image. cbn [tempId gi_status gi_id gi_weight gi_strengthType].
  repeat split.
  match goal with |- context [if truthy ?d then _ else _] => destruct (truthy d) end;
    [|reflexivity].
  match goal with |- context [lookup_str GUIDANCE_STRENGTH_TYPES ?d] =>
    destruct (lookup_str GUIDANCE_STRENGTH_TYPES d) as [l|] eqn:E end; [|reflexivity].
  rewrite (GUIDANCE_STRENGTH_TYPES_second _ _ E). reflexivity.
Qed.

Lemma strength_reset_spec g :
  strength_reset g = if declared (lookup_str GUIDANCE_STRENGTH_TYPES g) then "Mid" else "".
Proof.
  unfold strength_reset, strengths_of.
  destruct (lookup_str GUIDANCE_STRENGTH_TYPES g) as [l|] eqn:E; [|reflexivity].
  apply lookup_str_In in E.
  simpl in E. repeat destruct E as [E|E]; try (injection E as _ <-; reflexivity).
  contradiction.
Qed.

(** X12. [updateGuidanceImage t updates] keeps the list's length and
    order, leaves every image with another [tempId] unchanged, and never
    changes an image's [tempId], id, status or readiness. When [updates]
    sets a non-empty guidance type [g], the target takes [g] and its
    strength type is reset to "Mid" when [g] is a listed guidance type,
    to the empty string otherwise. *)
Theorem updateGuidanceImage_effect t u imgs :
  Forall2 (fun a b =>
             tempId b = tempId a /\ gi_id b = gi_id a /\ gi_status b = gi_status a /\
             is_ready b = is_ready a /\
             (tempId a <> t -> b = a) /\
             (tempId a = t -> forall g, u_guidanceType u = Some g -> truthy g = true ->
                guidanceType b = g /\
                gi_strengthType b =
                  if declared (lookup_str GUIDANCE_STRENGTH_TYPES g) then "Mid" else ""))
    imgs (updateGuidanceImage t u imgs).
Proof.
  unfold updateGuidanceImage.
  induction imgs as [|a r IH]; simpl; constructor; [|exact IH].
  destruct (String.eqb (tempId a) t) eqn:Et.
  - apply String.eqb_eq in Et.
    refine (conj eq_refl (conj eq_refl (conj eq_refl (conj eq_refl (conj _ _))))).
    + intros Hn. contradiction.
    + intros _ g0 Hg Htr. unfold normalize_update. rewrite Hg, Htr. simpl.
      split; [reflexivity|apply strength_reset_spec].
  - apply String.eqb_neq in Et.
    refine (conj eq_refl (conj eq_refl (conj eq_refl (conj eq_refl (conj _ _))))).
    + intros _. reflexivity.
    + intros Ht. contradiction.
Qed.

(** ** Upload outcome *)

Lemma upload_steps_id_truthy srv parse s3 apiKey file l i :
  fst (upload_steps srv parse s3 apiKey file l) = inr i -> truthy i = true.
Proof.
  unfold upload_steps, bind.
  destruct (request_upload_ticket srv apiKey (file_name file) l) as [[e|resp] l1];
    cbn [fst]; [discriminate|].
  destruct (parse (fields (uploadInitImage resp))); cbn [fst]; [|discriminate].
  destruct (uploadImageToS3 _); cbn [fst]; [discriminate|].
  destruct (truthy (up_id (uploadInitImage resp))) eqn:E; cbn [fst]; [|discriminate].
  intros H; injection H as <-. exact E.
Qed.

(** X13. When an upload settles, only the images with its [tempId] change;
    each keeps its guidance settings (guidance type, strength type, weight
    and context type) and becomes ready, with the returned image id,
    exactly when the upload steps succeeded. *)
Theorem finish_upload_readiness srv parse s3 apiKey file l t imgs :
  let o := fst (upload_steps srv parse s3 apiKey file l) in
  Forall2 (fun a b =>
             tempId b = tempId a /\ guidanceType b = guidanceType a /\
             gi_strengthType b = gi_strengthType a /\ gi_weight b = gi_weight a /\
             contextType b = contextType a /\
             (tempId a <> t -> b = a) /\
             (tempId a = t ->
                (is_ready b = true <-> exists i, o = inr i) /\
                (forall i, o = inr i -> gi_id b = Some i)))
    imgs (finish_upload t o imgs).
Proof.
  cbn zeta. unfold finish_upload.
  pose proof (upload_steps_id_truthy srv parse s3 apiKey file l) as Hi.
  destruct (fst (upload_steps srv parse s3 apiKey file l)) as [e|i] eqn:Eo;
    induction imgs as [|a r IH]; simpl; constructor; try exact IH;
    (destruct (String.eqb (tempId a) t) eqn:Et;
     [apply String.eqb_eq in Et | apply String.eqb_neq in Et]);
    refine (conj eq_refl (conj eq_refl (conj eq_refl (conj eq_refl (conj eq_refl (conj _ _))))));
    try (intros Hn; contradiction); try (intros _; reflexivity);
    try (intros Ht; contradiction).
  - intros _. split; [split; [discriminate|intros [i' Hi']; discriminate]|].
    intros i' Hi'. discriminate.
  - intros _. specialize (Hi i eq_refl). split.
    + split; [intros _; eauto|intros _; exact Hi].
    + intros i' Hi'. injection Hi' as ->. reflexivity.
Qed.

(** X14. Once the upload ticket is obtained and its field string parses,
    the upload outcome depends on the S3 [fetch] only through whether it
    rejected: a rejection gives the network error, and any response,
    whatever its status, counts as a successful upload, after which the
    ticket's image id is returned (or the missing-id error when it is
    empty). Only the ticket request is a Leonardo API call. *)
Theorem upload_steps_s3_status_ignored srv parse s3 apiKey file l st0 t0 ticket flds :
  truthy apiKey = true ->
  truthy (split_dot_pop (file_name file)) = true ->
  srv_init_image srv l (toLowerCase (split_dot_pop (file_name file)))
    = FetchResp st0 t0 (Some ticket) ->
  resp_ok st0 = true ->
  parse (fields (uploadInitImage ticket)) = Some flds ->
  let l1 := l ++ [init_image_event (toLowerCase (split_dot_pop (file_name file)))] in
  let u := uploadInitImage ticket in
  upload_steps srv parse s3 apiKey file l =
    (match s3 l1 (up_url u) (s3_form flds file) with
     | S3Rejected => inl (ErrMsg msg_s3_network)
     | S3Opaque _ => if truthy (up_id u) then inr (up_id u) else inl (ErrMsg msg_no_image_id)
     end, l1).
Proof.
  intros Hk Hx Hs Ho Hp. cbn zeta.
  unfold upload_steps, bind, request_upload_ticket.
  rewrite Hk, Hx. cbn [negb].
  unfold getInitImageUploadUrl, request. rewrite Hs, Ho. cbn [negb].
  rewrite Hp. unfold uploadImageToS3.
  destruct (s3 _ _ _); [reflexivity|].
  destruct (truthy (up_id (uploadInitImage ticket))); reflexivity.
Qed.

Definition file_sample : File := mkFile "photo.PNG" "data".

Lemma upload_steps_s3_status_ignored_witness :
  upload_steps (srv_sample "g1" 0 result_done) (fun _ => Some [("key", "k1")])
    (fun _ _ _ => S3Opaque 403) "key" file_sample []
  = (inr "u1", [init_image_event "png"]).
Proof.
  exact (upload_steps_s3_status_ignored (srv_sample "g1" 0 result_done)
           (fun _ => Some [("key", "k1")]) (fun _ _ _ => S3Opaque 403) "key" file_sample []
           200%Z "" ticket_sample [("key", "k1")] eq_refl eq_refl eq_refl eq_refl eq_refl).
Defined.

(** ** Settings state: the invariant kept by the controls and effects *)

(** The width and height are those of the selected aspect ratio, which is
    a key of [ASPECT_RATIO_DIMENSIONS]. *)
Definition dims_match (st : UIState) : Prop :=
  exists r w h, aspectRatio st = Some r /\
    lookup_str ASPECT_RATIO_DIMENSIONS r = Some (w, h) /\
    ui_width st = w /\ ui_height st = h.

Definition ui_inv (st : UIState) : Prop :=
  (exists c, getModelConfig (ui_modelName st) = Some c /\ ui_config st = Some c /\
             nodeType c = image_generation) /\
  (ui_alchemy st = true -> cfg_alchemy st = true) /\
  (ui_photoReal st = true -> ui_alchemy st = true) /\
  dims_match st.

Definition ratio_known (r : string) : bool :=
  declared (lookup_str ASPECT_RATIO_DIMENSIONS r).

Definition ratios_of (e : ModelEntry) : list string :=
  match aspectRatios (me_supports e) with Some l => l | None => [] end.

Definition image_ratios_ok (e : ModelEntry) : bool :=
  negb (NodeType_eqb (nodeType e) image_generation) ||
  ((match default_ratio (me_supports e) with Some r => ratio_known r | None => false end)
   && forallb ratio_known (ratios_of e)).

Lemma ratio_known_lookup r :
  ratio_known r = true -> exists wh, lookup_str ASPECT_RATIO_DIMENSIONS r = Some wh.
Proof.
  unfold ratio_known. destruct (lookup_str ASPECT_RATIO_DIMENSIONS r); [eauto|discriminate].
Qed.

Lemma image_model_ratios n c :
  getModelConfig n = Some c -> nodeType c = image_generation ->
  (exists r wh, default_ratio (me_supports c) = Some r /\
                lookup_str ASPECT_RATIO_DIMENSIONS r = Some wh) /\
  (forall r, In r (ratios_of c) -> exists wh, lookup_str ASPECT_RATIO_DIMENSIONS r = Some wh).
Proof.
  intros Hc Hnt.
  pose proof (forallb_MODEL_CONFIG (fun kv => image_ratios_ok (snd kv))
                ltac:(vm_compute; reflexivity) n c Hc) as H.
  simpl in H. unfold image_ratios_ok in H. rewrite Hnt in H. simpl in H.
  apply andb_true_iff in H as [Hd Hall]. split.
  - destruct (default_ratio (me_supports c)) as [r|]; [|discriminate].
    destruct (ratio_known_lookup r Hd) as [wh Hwh]. eauto.
  - intros r Hr. apply ratio_known_lookup.
    rewrite forallb_forall in Hall. apply Hall, Hr.
Qed.

Lemma image_model_of_select n :
  existsb (String.eqb n) (getModelsForNodeType image_generation) = true ->
  exists c, getModelConfig n = Some c /\ nodeType c = image_generation.
Proof.
  intros H. apply existsb_exists in H as [x [Hx Hnx]].
  apply String.eqb_eq in Hnx. subst x.
  unfold getModelsForNodeType in Hx. apply in_map_iff in Hx as [[k e] [Hk Hin]].
  simpl in Hk. subst k. apply filter_In in Hin as [Hin Hnt].
  exists e. split.
  - apply In_lookup_str; [apply MODEL_CONFIG_keys_distinct|exact Hin].
  - apply NodeType_eqb_eq, Hnt.
Qed.

Lemma dims_match_transfer x y :
  aspectRatio x = aspectRatio y -> ui_width x = ui_width y -> ui_height x = ui_height y ->
  dims_match y -> dims_match x.
Proof.
  intros Hr Hw Hh [r [w [h [H1 [H2 [H3 H4]]]]]].
  exists r, w, h. rewrite Hr, Hw, Hh. auto.
Qed.

Lemma alchemy_effect_keeps st :
  ui_modelName (alchemy_effect st) = ui_modelName st /\
  ui_config (alchemy_effect st) = ui_config st /\
  aspectRatio (alchemy_effect st) = aspectRatio st /\
  ui_width (alchemy_effect st) = ui_width st /\
  ui_height (alchemy_effect st) = ui_height st /\
  ui_alchemy (alchemy_effect st) = ui_alchemy st.
Proof. unfold alchemy_effect. destruct (ui_alchemy st) eqn:E; repeat split; simpl; congruence. Qed.

Lemma alchemy_effect_photoReal st :
  ui_photoReal (alchemy_effect st) = true -> ui_alchemy (alchemy_effect st) = true.
Proof. unfold alchemy_effect. destruct (ui_alchemy st) eqn:E; simpl; [auto|discriminate]. Qed.

Lemma aspect_effect_keeps st :
  ui_modelName (aspect_effect st) = ui_modelName st /\
  ui_config (aspect_effect st) = ui_config st /\
  aspectRatio (aspect_effect st) = aspectRatio st /\
  ui_alchemy (aspect_effect st) = ui_alchemy st /\
  ui_photoReal (aspect_effect st) = ui_photoReal st.
Proof.
  unfold aspect_effect.
  destruct (aspectRatio st) as [r|] eqn:Er; [|repeat split; simpl; congruence].
  destruct (lookup_str ASPECT_RATIO_DIMENSIONS r) as [[w h]|]; repeat split; simpl; congruence.
Qed.

Lemma aspect_effect_dims st r wh :
  aspectRatio st = Some r -> lookup_str ASPECT_RATIO_DIMENSIONS r = Some wh ->
  dims_match (aspect_effect st).
Proof.
  intros Hr Hl. unfold aspect_effect. rewrite Hr, Hl. destruct wh as [w h].
  exists r, w, h. simpl. auto.
Qed.

Lemma option_string_eqb_eq a b : option_string_eqb a b = true -> a = b.
Proof.
  destruct a, b; simpl; try discriminate; [|reflexivity].
  intros H. apply String.eqb_eq in H. subst. reflexivity.
Qed.

Lemma settle_keeps b a :
  ui_modelName (settle b a) = ui_modelName a /\
  ui_config (settle b a) = ui_config a /\
  aspectRatio (settle b a) = aspectRatio a /\
  ui_alchemy (settle b a) = ui_alchemy a.
Proof.
  unfold settle.
  set (st1 := if Bool.eqb (ui_alchemy b) (ui_alchemy a) then a else alchemy_effect a).
  assert (H1 : ui_modelName st1 = ui_modelName a /\ ui_config st1 = ui_config a /\
               aspectRatio st1 = aspectRatio a /\ ui_alchemy st1 = ui_alchemy a).
  { unfold st1. destruct (Bool.eqb _ _); [repeat split|].
    destruct (alchemy_effect_keeps a) as [? [? [? [? [? ?]]]]]. auto. }
  destruct (option_string_eqb (aspectRatio b) (aspectRatio st1)); [exact H1|].
  destruct (aspect_effect_keeps st1) as [? [? [? [? ?]]]].
  destruct H1 as [? [? [? ?]]]. repeat split; congruence.
Qed.

Lemma settle_inv b a :
  (exists c, getModelConfig (ui_modelName a) = Some c /\ ui_config a = Some c /\
             nodeType c = image_generation) ->
  (ui_alchemy a = true -> cfg_alchemy a = true) ->
  (ui_alchemy b = ui_alchemy a -> ui_photoReal a = true -> ui_alchemy a = true) ->
  (exists r wh, aspectRatio a = Some r /\ lookup_str ASPECT_RATIO_DIMENSIONS r = Some wh) ->
  (aspectRatio b = aspectRatio a -> dims_match a) ->
  ui_inv (settle b a).
Proof.
  intros Hc Ha Hp [r [wh [Hr Hwh]]] Hd.
  destruct (settle_keeps b a) as [Kn [Kc [Kr Ka]]].
  unfold settle in *.
  set (st1 := if Bool.eqb (ui_alchemy b) (ui_alchemy a) then a else alchemy_effect a) in *.
  assert (S1 : ui_modelName st1 = ui_modelName a /\ ui_config st1 = ui_config a /\
               aspectRatio st1 = aspectRatio a /\ ui_width st1 = ui_width a /\
               ui_height st1 = ui_height a /\ ui_alchemy st1 = ui_alchemy a).
  { unfold st1. destruct (Bool.eqb _ _); [repeat split|]. apply alchemy_effect_keeps. }
  destruct S1 as [Sn [Sc [Sr [Sw [Sh Sa]]]]].
  assert (Sp : ui_photoReal st1 = true -> ui_alchemy st1 = true).
  { unfold st1. destruct (Bool.eqb (ui_alchemy b) (ui_alchemy a)) eqn:E.
    - apply Bool.eqb_prop in E. apply Hp, E.
    - apply alchemy_effect_photoReal. }
  assert (Hcfg : forall x, ui_config x = ui_config a -> cfg_alchemy x = cfg_alchemy a).
  { intros x Hx. unfold cfg_alchemy. rewrite Hx. reflexivity. }
  destruct (option_string_eqb (aspectRatio b) (aspectRatio st1)) eqn:E.
  - apply option_string_eqb_eq in E.
    split; [rewrite Sn, Sc; exact Hc|].
    split; [rewrite Sa, (Hcfg st1 Sc); exact Ha|].
    split; [exact Sp|].
    apply (dims_match_transfer st1 a Sr Sw Sh). apply Hd. congruence.
  - destruct (aspect_effect_keeps st1) as [An [Ac [Ar [Aa Ap]]]].
    split; [rewrite An, Sn, Ac, Sc; exact Hc|].
    split; [rewrite Aa, Sa, (Hcfg (aspect_effect st1) ltac:(congruence)); exact Ha|].
    split; [rewrite Ap, Aa; exact Sp|].
    apply (aspect_effect_dims st1 r wh); [congruence|exact Hwh].
Qed.

Lemma ui_mounted_inv : ui_inv ui_mounted.
Proof.
  split; [eexists; split; [reflexivity|split; reflexivity]|].
  split; [vm_compute; discriminate|].
  split; [vm_compute; discriminate|].
  exists "1:1", 1024%Z, 1024%Z. vm_compute. auto.
Qed.

Lemma ui_step_inv st a : ui_inv st -> ui_inv (ui_step st a).
Proof.
  intros Hinv.
  pose proof Hinv as [[c [Hc [Hcfg Hnt]]] [Ha [Hp Hd]]].
  destruct a as [n|r|b|b|s]; unfold ui_step.
  - destruct (existsb (String.eqb n) (getModelsForNodeType image_generation)) eqn:Hm;
      cbn [negb]; [|exact Hinv].
    destruct (String.eqb n (ui_modelName st)); [exact Hinv|].
    destruct (image_model_of_select n Hm) as [c' [Hc' Hnt']].
    unfold model_effect. cbn [ui_modelName]. rewrite Hc'.
    destruct (image_model_ratios n c' Hc' Hnt') as [Hdef _].
    apply settle_inv; cbn [ui_modelName ui_config ui_alchemy ui_photoReal aspectRatio].
    + eauto.
    + intros H. exact H.
    + intros _ H. apply andb_true_iff in H. tauto.
    + exact Hdef.
    + intros Hr. apply (dims_match_transfer _ st); auto.
  - destruct (existsb (String.eqb r) (cfg_ratios st)) eqn:Hm; cbn [negb]; [|exact Hinv].
    apply existsb_exists in Hm as [x [Hx Hrx]]. apply String.eqb_eq in Hrx. subst x.
    destruct (image_model_ratios _ c Hc Hnt) as [_ Hall].
    unfold cfg_ratios in Hx. rewrite Hcfg in Hx.
    destruct (Hall r Hx) as [wh Hwh].
    apply settle_inv; cbn [ui_modelName ui_config ui_alchemy ui_photoReal aspectRatio].
    + eauto.
    + exact Ha.
    + intros _. exact Hp.
    + eauto.
    + intros Hr. apply (dims_match_transfer _ st); auto.
  - destruct (cfg_alchemy st) eqn:Hca; cbn [negb]; [|exact Hinv].
    apply settle_inv; cbn [ui_modelName ui_config ui_alchemy ui_photoReal aspectRatio
                           set_alchemy_photoReal].
    + eauto.
    + intros _. exact Hca.
    + intros E. rewrite <- E. exact Hp.
    + destruct Hd as [r [w [h [Hr [Hl _]]]]]. eauto.
    + intros _. apply (dims_match_transfer _ st); auto.
  - destruct (cfg_alchemy st && ui_alchemy st) eqn:Hca; cbn [negb]; [|exact Hinv].
    apply andb_true_iff in Hca as [Hca Hal].
    split; [simpl; eauto|].
    split; [intros _; exact Hca|].
    split; [intros _; exact Hal|].
    apply (dims_match_transfer _ st); auto.
  - destruct (cfg_alchemy st && ui_alchemy st) eqn:Hca; cbn [negb]; [|exact Hinv].
    split; [simpl; eauto|].
    split; [exact Ha|].
    split; [exact Hp|].
    apply (dims_match_transfer _ st); auto.
Qed.

(** X15. After mounting and any sequence of user actions on the settings
    controls, the selected model is an image-generation model of
    [MODEL_CONFIG] whose entry is the selected configuration; alchemy is on
    only if the model supports it; PhotoReal is on only if alchemy is on;
    and the width and height are those [ASPECT_RATIO_DIMENSIONS] gives for
    the selected aspect ratio. *)
Theorem ui_settings_invariant acts : ui_inv (ui_run ui_mounted acts).
Proof.
  unfold ui_run. generalize ui_mounted_inv. generalize ui_mounted.
  induction acts as [|a r IH]; intros st Hst; simpl; [exact Hst|].
  apply IH, ui_step_inv, Hst.
Qed.
